(** * samdma21-memputer: LUT builders and the add8 descriptor chain

    A shallow embedding of [firmware/dmainstrs.c].  The C functions write
    through raw pointers into the microcontroller's flat address space, so
    memory is one byte-addressed store and every builder is a function from
    the store before the call to the store it leaves behind.

    Loops take a fuel argument.  A loop that the fuel does not exhaust yields
    [Returned m]; a loop still going when the fuel is used up yields
    [Running m], where [m] is the store at that moment. *)

From Stdlib Require Import ZArith Lia List Bool.
Import ListNotations.
Local Open Scope Z_scope.

(** ** Machine integers *)

(** Conversion to [uint8_t], [uint16_t] and [uint32_t]: reduction modulo the
    width. *)
Definition uint8 (z : Z) : Z := z mod 2 ^ 8.
Definition uint16 (z : Z) : Z := z mod 2 ^ 16.
Definition uint32 (z : Z) : Z := z mod 2 ^ 32.

(** Conversion of a 32-bit pattern to [int] (two's complement). *)
Definition to_int (z : Z) : Z :=
  let u := uint32 z in if u <? 2 ^ 31 then u else u - 2 ^ 32.

(** ** Memory *)

(** The address space: one cell per byte address.  Only the low eight bits of
    a cell are observable. *)
Definition mem : Type := Z -> Z.

Definition load8 (m : mem) (a : Z) : Z := uint8 (m a).

Definition store8 (m : mem) (a v : Z) : mem :=
  fun x => if x =? a then uint8 v else m x.

(** The Cortex-M0+ is little-endian. *)
Definition load16 (m : mem) (a : Z) : Z :=
  load8 m a + 2 ^ 8 * load8 m (a + 1).

Definition load32 (m : mem) (a : Z) : Z :=
  load16 m a + 2 ^ 16 * load16 m (a + 2).

Definition store16 (m : mem) (a v : Z) : mem :=
  store8 (store8 m a v) (a + 1) (Z.shiftr v 8).

Definition store32 (m : mem) (a v : Z) : mem :=
  store16 (store16 m a v) (a + 2) (Z.shiftr v 16).

Definition zero_mem : mem := fun _ => 0.

(** ** Loops *)

Inductive outcome : Type :=
| Returned (m : mem)
| Running (m : mem).

Definition outcome_mem (o : outcome) : mem :=
  match o with Returned m => m | Running m => m end.

(** [for (T count = c0; count < bound; count++) body], where [wrap] is the
    conversion to the counter's type [T] applied by [count++]. *)
Fixpoint for_loop (wrap : Z -> Z) (bound : Z) (body : Z -> mem -> outcome)
         (fuel : nat) (count : Z) (m : mem) : outcome :=
  match fuel with
  | O => Running m
  | S fuel' =>
      if count <? bound then
        match body count m with
        | Returned m' => for_loop wrap bound body fuel' (wrap (count + 1)) m'
        | Running m' => Running m'
        end
      else Returned m
  end.

(** [while (cond) body]. *)
Fixpoint while_loop (cond : mem -> bool) (body : mem -> outcome)
         (fuel : nat) (m : mem) : outcome :=
  match fuel with
  | O => Running m
  | S fuel' =>
      if cond m then
        match body m with
        | Returned m' => while_loop cond body fuel' m'
        | Running m' => Running m'
        end
      else Returned m
  end.

(** ** LUT building functions *)

(** 16x256 table; loop counters are [uint32_t], the index an [int]. *)
Definition setup_low_nybble_low_nybble_to_byte (fuel : nat) (base : Z) (m : mem)
  : outcome :=
  for_loop uint32 16 (fun high_nybble m =>
    for_loop uint32 16 (fun low_nybble m =>
      for_loop uint32 16 (fun dup_count m =>
        let idx := to_int ((dup_count * 16) + (low_nybble * 1)
                           + (high_nybble * 256)) in
        let target_value :=
          uint8 (Z.lor (Z.shiftl high_nybble 4) low_nybble) in
        Returned (store8 m (base + idx) target_value))
      fuel 0 m)
    fuel 0 m)
  fuel 0 m.

(** The 1x256 and 16x16 builders all have the shape
    [for (uint8_t count = 0; count < 256; count++) { base[count] = e; }]. *)
Definition setup_low_nybble_to_low_nybble (fuel : nat) (base : Z) (m : mem)
  : outcome :=
  for_loop uint8 256 (fun count m =>
    Returned (store8 m (base + count) (Z.land (Z.shiftl count 0) 0x0f)))
  fuel 0 m.

Definition setup_low_nybble_to_high_nybble (fuel : nat) (base : Z) (m : mem)
  : outcome :=
  for_loop uint8 256 (fun count m =>
    Returned (store8 m (base + count) (Z.land (Z.shiftl count 4) 0xf0)))
  fuel 0 m.

Definition setup_high_nybble_to_high_nybble (fuel : nat) (base : Z) (m : mem)
  : outcome :=
  for_loop uint8 256 (fun count m =>
    Returned (store8 m (base + count) (Z.land (Z.shiftl count 0) 0xf0)))
  fuel 0 m.

Definition setup_high_nybble_to_low_nybble (fuel : nat) (base : Z) (m : mem)
  : outcome :=
  for_loop uint8 256 (fun count m =>
    Returned (store8 m (base + count) (Z.land (Z.shiftr count 4) 0x0f)))
  fuel 0 m.

(** Sum tables (dmainstrs.c lines 125 and 136). *)
Definition setup_nybble_add_no_carryin (fuel : nat) (base : Z) (m : mem)
  : outcome :=
  for_loop uint8 256 (fun count m =>
    Returned (store8 m (base + count)
      (Z.land (Z.land (Z.shiftr count 4) 0x0f + Z.land count 0x0f) 0x0f)))
  fuel 0 m.

Definition setup_nybble_add_with_carryin (fuel : nat) (base : Z) (m : mem)
  : outcome :=
  for_loop uint8 256 (fun count m =>
    Returned (store8 m (base + count)
      (Z.land (Z.land (Z.shiftr count 4) 0x0f + Z.land count 0x0f + 1) 0x0f)))
  fuel 0 m.

(** Carry-out tables (dmainstrs.c lines 146 and 156).  The source gives them
    the same two function names as the sum tables above; the module keeps the
    names apart. *)
Module Carryout.

Definition setup_nybble_add_no_carryin (fuel : nat) (base : Z) (m : mem)
  : outcome :=
  for_loop uint8 256 (fun count m =>
    Returned (store8 m (base + count)
      (Z.shiftr
         (Z.land (Z.land (Z.shiftr count 4) 0x0f + Z.land count 0x0f) 0x10)
         4)))
  fuel 0 m.

Definition setup_nybble_add_with_carryin (fuel : nat) (base : Z) (m : mem)
  : outcome :=
  for_loop uint8 256 (fun count m =>
    Returned (store8 m (base + count)
      (Z.shiftr
         (Z.land (Z.land (Z.shiftr count 4) 0x0f + Z.land count 0x0f + 1) 0x10)
         4)))
  fuel 0 m.

End Carryout.

Definition setup_nybble_compare_equal (fuel : nat) (base a b : Z) (m : mem)
  : outcome :=
  for_loop uint8 256 (fun count m =>
    Returned (store8 m (base + count)
      (if Z.land count 0x0f =? Z.land (Z.shiftr count 4) 0x0f then a else b)))
  fuel 0 m.

(** [// unimplemented] followed by [while(1);]. *)
Definition build_lut8_add (fuel : nat) (base : Z) (m : mem) : outcome :=
  while_loop (fun _ => true) (fun m => Returned m) fuel m.

(** The contents of a 256-entry table placed at [base]. *)
Definition table_of (base : Z) (m : mem) : list Z :=
  map (fun i => load8 m (base + Z.of_nat i)) (seq 0 256).

(** The nine builders whose loop counter is a [uint8_t], with the two output
    values of the comparison table fixed. *)
Definition uint8_table_builders (a b : Z) : list (nat -> Z -> mem -> outcome) :=
  [ setup_low_nybble_to_low_nybble;
    setup_low_nybble_to_high_nybble;
    setup_high_nybble_to_high_nybble;
    setup_high_nybble_to_low_nybble;
    setup_nybble_add_no_carryin;
    setup_nybble_add_with_carryin;
    Carryout.setup_nybble_add_no_carryin;
    Carryout.setup_nybble_add_with_carryin;
    fun fuel base m => setup_nybble_compare_equal fuel base a b m ].

(** ** DMA descriptors *)

(** Modelled from the spec: the declaration of [DmacDescriptor] (in
    [dmainstrs.h] and the SAMD21 device header) is not among the sources.
    Section 6 of the specification gives the fields in order: control word,
    transfer count, source address, destination address, next-descriptor
    address.  The widths are the SAMD21 DMAC's: a 16-bit control word, a
    16-bit count and three 32-bit addresses, 16 bytes in all. *)
Definition sizeof_DmacDescriptor : Z := 16.
Definition offsetof_BTCTRL : Z := 0.
Definition offsetof_BTCNT : Z := 2.
Definition offsetof_SRCADDR : Z := 4.
Definition offsetof_DSTADDR : Z := 8.
Definition offsetof_DESCADDR : Z := 12.
Definition sizeof_SRCADDR : Z := 4.

(** [&descs[i]] and [&descs[i].FIELD]. *)
Definition desc_addr (descs i : Z) : Z := descs + i * sizeof_DmacDescriptor.
Definition addr_BTCTRL (descs i : Z) : Z := desc_addr descs i + offsetof_BTCTRL.
Definition addr_BTCNT (descs i : Z) : Z := desc_addr descs i + offsetof_BTCNT.
Definition addr_SRCADDR (descs i : Z) : Z := desc_addr descs i + offsetof_SRCADDR.
Definition addr_DSTADDR (descs i : Z) : Z := desc_addr descs i + offsetof_DSTADDR.
Definition addr_DESCADDR (descs i : Z) : Z := desc_addr descs i + offsetof_DESCADDR.

(** C pointer arithmetic: [p + n] on a pointer to objects of [size] bytes. *)
Definition ptr_add (size p n : Z) : Z := p + n * size.

Definition default_btctrl : Z :=
  uint16
    (Z.lor (Z.shiftl 0 13)
    (Z.lor (Z.shiftl 0 12)
    (Z.lor (Z.shiftl 0 11)
    (Z.lor (Z.shiftl 0 10)
    (Z.lor (Z.shiftl 0 8)
    (Z.lor (Z.shiftl 0 3)
    (Z.lor (Z.shiftl 0 1)
           (Z.shiftl 1 0)))))))).

Section Add8.

(** Address of the function's [static uint8_t scratch[4]].  It is fixed when
    the program is linked; it is not an argument of a call. *)
Variable scratch : Z.

(** The three descriptors the function fills in, assignment by assignment.
    [descs[2].SRCADDR] is not assigned, and [result] is not used. *)
Definition build_add8_using_nybbles (descs opa opb result : Z) (m : mem) : mem :=
  let m := store16 m (addr_BTCTRL descs 0) default_btctrl in
  let m := store16 m (addr_BTCNT descs 0) 1 in
  let m := store32 m (addr_SRCADDR descs 0) (load8 m opa) in
  let m := store32 m (addr_DSTADDR descs 0) (addr_SRCADDR descs 2) in
  let m := store32 m (addr_DESCADDR descs 0) (desc_addr descs 1) in
  let m := store16 m (addr_BTCTRL descs 1) default_btctrl in
  let m := store16 m (addr_BTCNT descs 1) 1 in
  let m := store32 m (addr_SRCADDR descs 1) (load8 m opb) in
  let m := store32 m (addr_DSTADDR descs 1)
                   (ptr_add sizeof_SRCADDR (addr_SRCADDR descs 2) 1) in
  let m := store32 m (addr_DESCADDR descs 1) (desc_addr descs 2) in
  let m := store16 m (addr_BTCTRL descs 2) default_btctrl in
  let m := store16 m (addr_BTCNT descs 2) 2 in
  let m := store32 m (addr_DSTADDR descs 2) (scratch + 2) in
  let m := store32 m (addr_DESCADDR descs 2) (desc_addr descs 2) in
  m.

End Add8.

(** ** The chain executor (the DMA controller) *)

Record DmacDescriptor : Type := mkDesc {
  BTCTRL : Z;
  BTCNT : Z;
  SRCADDR : Z;
  DSTADDR : Z;
  DESCADDR : Z
}.

Definition read_descriptor (m : mem) (d : Z) : DmacDescriptor :=
  {| BTCTRL := load16 m (d + offsetof_BTCTRL);
     BTCNT := load16 m (d + offsetof_BTCNT);
     SRCADDR := load32 m (d + offsetof_SRCADDR);
     DSTADDR := load32 m (d + offsetof_DSTADDR);
     DESCADDR := load32 m (d + offsetof_DESCADDR) |}.

Inductive chain_state : Type :=
| Fetch (next : Z)
| Complete
| Fault.

(** One beat with both address increments disabled: a byte from the source
    address to the destination address. *)
Definition beat (d : DmacDescriptor) (m : mem) : mem :=
  store8 m (DSTADDR d) (load8 m (SRCADDR d)).

Definition block_transfer (d : DmacDescriptor) (m : mem) : mem :=
  Nat.iter (Z.to_nat (BTCNT d)) (beat d) m.

(** Modelled from the spec: the executor is the DMA hardware.  Per sections
    4.3 and 6 it fetches the descriptor at the current link, carries out its
    block transfer and continues at the next-descriptor address, stopping at
    a null link.  Only the control word that [build_add8_using_nybbles]
    emits is modelled (valid, byte beats, no increment, no block action);
    any other control word stops the chain with [Fault]. *)
Definition dma_step (m : mem) (a : Z) : mem * chain_state :=
  let d := read_descriptor m a in
  if BTCTRL d =? default_btctrl then
    (block_transfer d m, if DESCADDR d =? 0 then Complete else Fetch (DESCADDR d))
  else (m, Fault).

(** At most [n] block transfers, starting with the descriptor at [a]. *)
Fixpoint dma_run (n : nat) (m : mem) (a : Z) : mem * chain_state :=
  match n with
  | O => (m, Fetch a)
  | S n' =>
      match dma_step m a with
      | (m', Fetch a') => dma_run n' m' a'
      | r => r
      end
  end.

(** ** A concrete placement in the SAMD21's SRAM *)

Module Board.

Definition scratch : Z := 0x20000400.
Definition descs : Z := 0x20000100.
Definition opa : Z := 0x20000200.
Definition opb : Z := 0x20000201.
Definition result : Z := 0x20000202.

(** Operands [a] and [b] in place, every other byte zero. *)
Definition initial (a b : Z) : mem :=
  store8 (store8 zero_mem opa a) opb b.

End Board.

(** ** firmware/main.c *)

(** The peripheral registers [init_hardware] names.  Their declarations are
    in the device header [samd21g18a.h], which is not among the sources; the
    widths below are those of the SAMD21: [PMUX] and [PINCFG] are arrays of
    8-bit registers, [CLKCTRL] and [BAUD] are 16 bits wide, the others 32. *)
Inductive register : Type :=
| SYSCTRL_OSC8M
| PORT_PMUX (i : Z)
| PORT_PINCFG (i : Z)
| PM_APBCMASK
| GCLK_CLKCTRL
| SERCOM0_CTRLA
| SERCOM0_BAUD
| SERCOM0_CTRLB.

Definition register_eqb (r s : register) : bool :=
  match r, s with
  | SYSCTRL_OSC8M, SYSCTRL_OSC8M => true
  | PORT_PMUX i, PORT_PMUX j => i =? j
  | PORT_PINCFG i, PORT_PINCFG j => i =? j
  | PM_APBCMASK, PM_APBCMASK => true
  | GCLK_CLKCTRL, GCLK_CLKCTRL => true
  | SERCOM0_CTRLA, SERCOM0_CTRLA => true
  | SERCOM0_BAUD, SERCOM0_BAUD => true
  | SERCOM0_CTRLB, SERCOM0_CTRLB => true
  | _, _ => false
  end.

Definition register_bits (r : register) : Z :=
  match r with
  | SYSCTRL_OSC8M => 32
  | PORT_PMUX _ => 8
  | PORT_PINCFG _ => 8
  | PM_APBCMASK => 32
  | GCLK_CLKCTRL => 16
  | SERCOM0_CTRLA => 32
  | SERCOM0_BAUD => 16
  | SERCOM0_CTRLB => 32
  end.

(** The registers are [volatile]: besides what each register holds, the
    state keeps the writes made so far, oldest first.  A register reads back
    what it holds. *)
Record hardware : Type := mkHardware {
  contents : register -> Z;
  writes : list (register * Z)
}.

Definition reg_read (h : hardware) (r : register) : Z :=
  contents h r mod 2 ^ register_bits r.

Definition reg_write (h : hardware) (r : register) (v : Z) : hardware :=
  {| contents := fun s =>
       if register_eqb s r then v mod 2 ^ register_bits r else contents h s;
     writes := writes h ++ [(r, v mod 2 ^ register_bits r)] |}.

Definition init_hardware (h : hardware) : hardware :=
  (* change OSC8M output divider from 8 to 1 *)
  let h := reg_write h SYSCTRL_OSC8M
             (Z.land (reg_read h SYSCTRL_OSC8M) (uint32 (Z.lnot (Z.shiftl 3 8)))) in
  (* select function C for pin PA10 *)
  let h := reg_write h (PORT_PMUX (Z.shiftr 10 1))
             (Z.land (reg_read h (PORT_PMUX (Z.shiftr 10 1)))
                     (Z.lnot (Z.shiftl 0x0f 0))) in
  let h := reg_write h (PORT_PMUX (Z.shiftr 10 1))
             (Z.lor (reg_read h (PORT_PMUX (Z.shiftr 10 1))) (Z.shiftl 0x02 0)) in
  let h := reg_write h (PORT_PINCFG 10) 0x01 in
  (* enable sercom0's clock *)
  let h := reg_write h PM_APBCMASK
             (Z.lor (reg_read h PM_APBCMASK) (Z.shiftl 1 2)) in
  (* route GCLK0 to sercom0 and sercomx_slow *)
  let h := reg_write h GCLK_CLKCTRL
             (Z.lor (Z.lor (Z.shiftl 1 14) (Z.shiftl 0 8)) (Z.shiftl 0x13 0)) in
  let h := reg_write h GCLK_CLKCTRL
             (Z.lor (Z.lor (Z.shiftl 1 14) (Z.shiftl 0 8)) (Z.shiftl 0x14 0)) in
  let h := reg_write h SERCOM0_CTRLA
             (Z.lor (Z.lor (Z.lor (Z.lor (Z.shiftl 1 30) (Z.shiftl 3 20))
                                  (Z.shiftl 1 16))
                           (Z.shiftl 1 13))
                    (Z.shiftl 1 2)) in
  let h := reg_write h SERCOM0_BAUD (Z.lor (Z.shiftl 3 13) (Z.shiftl 4 0)) in
  (* enable RX and TX *)
  let h := reg_write h SERCOM0_CTRLB (Z.lor (Z.shiftl 1 17) (Z.shiftl 1 16)) in
  (* enable SERCOM0 *)
  let h := reg_write h SERCOM0_CTRLA
             (Z.lor (reg_read h SERCOM0_CTRLA) (Z.shiftl 1 1)) in
  h.

(** The state [main] runs in: the peripherals and the memory. *)
Inductive main_outcome : Type :=
| Exited (status : Z) (h : hardware) (m : mem)
| Looping (h : hardware) (m : mem).

(** [while (1) { }] *)
Fixpoint main_loop (fuel : nat) (h : hardware) (m : mem) : main_outcome :=
  match fuel with
  | O => Looping h m
  | S fuel' => if negb (1 =? 0) then main_loop fuel' h m else Exited 0 h m
  end.

Definition main (fuel : nat) (h : hardware) (m : mem) : main_outcome :=
  let choffset := uint8 0 in
  main_loop fuel h m.

(** * Properties *)

(** ** Loads after stores *)

Lemma uint8_range z : 0 <= uint8 z < 256.
Proof. unfold uint8. change (2 ^ 8) with 256. apply Z.mod_pos_bound. lia. Qed.

Lemma uint8_small z : 0 <= z < 256 -> uint8 z = z.
Proof. intros H. unfold uint8. apply Z.mod_small. exact H. Qed.

Lemma uint8_idem z : uint8 (uint8 z) = uint8 z.
Proof. apply uint8_small, uint8_range. Qed.

Lemma uint32_small z : 0 <= z < 2 ^ 32 -> uint32 z = z.
Proof. intros H. unfold uint32. apply Z.mod_small. exact H. Qed.

Lemma load8_range m a : 0 <= load8 m a < 256.
Proof. apply uint8_range. Qed.

Lemma load8_store8_same m a v : load8 (store8 m a v) a = uint8 v.
Proof. unfold load8, store8. rewrite Z.eqb_refl. apply uint8_idem. Qed.

Lemma load8_store8_other m a v b :
  b <> a -> load8 (store8 m a v) b = load8 m b.
Proof.
  intros H. unfold load8, store8.
  destruct (Z.eqb_spec b a); [contradiction | reflexivity].
Qed.

Lemma load8_store16_other m a v b :
  b < a \/ a + 2 <= b -> load8 (store16 m a v) b = load8 m b.
Proof.
  intros H. unfold store16.
  rewrite !load8_store8_other by lia. reflexivity.
Qed.

Lemma load8_store32_other m a v b :
  b < a \/ a + 4 <= b -> load8 (store32 m a v) b = load8 m b.
Proof.
  intros H. unfold store32.
  rewrite !load8_store16_other by lia. reflexivity.
Qed.

Lemma split_uint16 v : uint8 v + 2 ^ 8 * uint8 (Z.shiftr v 8) = uint16 v.
Proof.
  unfold uint8, uint16. rewrite Z.shiftr_div_pow2 by lia.
  change (2 ^ 16) with (2 ^ 8 * 2 ^ 8).
  rewrite Z.rem_mul_r by lia. reflexivity.
Qed.

Lemma split_uint32 v : uint16 v + 2 ^ 16 * uint16 (Z.shiftr v 16) = uint32 v.
Proof.
  unfold uint16, uint32. rewrite Z.shiftr_div_pow2 by lia.
  change (2 ^ 32) with (2 ^ 16 * 2 ^ 16).
  rewrite Z.rem_mul_r by lia. reflexivity.
Qed.

Lemma load16_store16_same m a v : load16 (store16 m a v) a = uint16 v.
Proof.
  unfold load16, store16.
  rewrite load8_store8_same.
  rewrite load8_store8_other by lia.
  rewrite load8_store8_same.
  apply split_uint16.
Qed.

Lemma load16_store16_other m a v b :
  b + 2 <= a \/ a + 2 <= b -> load16 (store16 m a v) b = load16 m b.
Proof.
  intros H. unfold load16.
  rewrite !load8_store16_other by lia. reflexivity.
Qed.

Lemma load16_store32_other m a v b :
  b + 2 <= a \/ a + 4 <= b -> load16 (store32 m a v) b = load16 m b.
Proof.
  intros H. unfold load16.
  rewrite !load8_store32_other by lia. reflexivity.
Qed.

Lemma load32_store16_other m a v b :
  b + 4 <= a \/ a + 2 <= b -> load32 (store16 m a v) b = load32 m b.
Proof.
  intros H. unfold load32.
  rewrite !load16_store16_other by lia. reflexivity.
Qed.

Lemma load32_store32_same m a v : load32 (store32 m a v) a = uint32 v.
Proof.
  unfold load32, store32.
  rewrite load16_store16_same.
  rewrite load16_store16_other by lia.
  rewrite load16_store16_same.
  apply split_uint32.
Qed.

Lemma load32_store32_other m a v b :
  b + 4 <= a \/ a + 4 <= b -> load32 (store32 m a v) b = load32 m b.
Proof.
  intros H. unfold load32.
  rewrite !load16_store32_other by lia. reflexivity.
Qed.

Lemma load32_store8_other m a v b :
  b + 4 <= a \/ a < b -> load32 (store8 m a v) b = load32 m b.
Proof.
  intros H. unfold load32, load16.
  rewrite !load8_store8_other by lia. reflexivity.
Qed.

Lemma load16_store8_other m a v b :
  b + 2 <= a \/ a < b -> load16 (store8 m a v) b = load16 m b.
Proof.
  intros H. unfold load16.
  rewrite !load8_store8_other by lia. reflexivity.
Qed.

(** Rewriting a load through the stores of a builder. *)
Ltac mem_simpl :=
  repeat first
    [ rewrite load32_store32_same
    | rewrite load16_store16_same
    | rewrite load8_store8_same
    | rewrite load32_store32_other by lia
    | rewrite load32_store16_other by lia
    | rewrite load32_store8_other by lia
    | rewrite load16_store32_other by lia
    | rewrite load16_store16_other by lia
    | rewrite load16_store8_other by lia
    | rewrite load8_store32_other by lia
    | rewrite load8_store16_other by lia
    | rewrite load8_store8_other by lia ].

(** ** Checking a property of a bounded integer by enumeration *)

Lemma forall_below (P : Z -> bool) (n : nat) :
  forallb P (map Z.of_nat (seq 0 n)) = true ->
  forall z, 0 <= z < Z.of_nat n -> P z = true.
Proof.
  intros H z Hz.
  rewrite forallb_forall in H. apply H.
  apply in_map_iff. exists (Z.to_nat z). split.
  - lia.
  - apply in_seq. lia.
Qed.

(** ** Loops that never leave *)

Lemma while_true_running fuel : forall m,
  while_loop (fun _ => true) (fun m => Returned m) fuel m = Running m.
Proof. induction fuel as [|fuel IH]; intros m; simpl; [reflexivity | apply IH]. Qed.

Section Uint8Table.

Variable f : Z -> Z.
Variable base : Z.

(** [for (uint8_t count = 0; count < 256; count++) base[count] = f(count);]
    started at any counter value: the condition holds for every value of a
    [uint8_t], so the fuel always runs out.  Every byte of the store is then
    either untouched or holds its table entry, and each of the [fuel] counter
    values visited has had its entry stored. *)
Lemma uint8_table_loop fuel : forall c m,
  0 <= c < 256 ->
  exists m',
    for_loop uint8 256
      (fun count m => Returned (store8 m (base + count) (f count))) fuel c m
    = Running m'
    /\ (forall a, load8 m' a = load8 m a
                  \/ exists i, 0 <= i < 256 /\ a = base + i
                               /\ load8 m' a = uint8 (f i))
    /\ (forall k, 0 <= k < Z.of_nat fuel ->
          load8 m' (base + uint8 (c + k)) = uint8 (f (uint8 (c + k)))).
Proof.
  induction fuel as [|fuel IH]; intros c m Hc.
  - exists m. simpl. split; [reflexivity|]. split; [auto | intros; lia].
  - cbn [for_loop].
    destruct (Z.ltb_spec c 256) as [_|Hge]; [|lia].
    destruct (IH (uint8 (c + 1)) (store8 m (base + c) (f c))
                 (uint8_range _)) as (m' & Hrun & Hcell & Hvis).
    exists m'. split; [exact Hrun|]. split.
    + intros a. destruct (Hcell a) as [Hsame|Htab]; [|right; exact Htab].
      destruct (Z.eq_dec a (base + c)) as [->|Hne].
      * right. exists c. rewrite Hsame, load8_store8_same. auto.
      * left. rewrite Hsame. apply load8_store8_other. exact Hne.
    + intros k Hk.
      destruct (Z.eq_dec k 0) as [->|Hk0].
      * rewrite Z.add_0_r, (uint8_small c Hc).
        destruct (Hcell (base + c)) as [Hsame|(i & Hi & Heq & Hv)].
        -- rewrite Hsame. apply load8_store8_same.
        -- assert (i = c) by lia. subst i. exact Hv.
      * replace (uint8 (c + k)) with (uint8 (uint8 (c + 1) + (k - 1))).
        -- apply Hvis. lia.
        -- unfold uint8. rewrite Zplus_mod_idemp_l. f_equal. lia.
Qed.

(** The same loop from [count = 0]. *)
Lemma uint8_table_snapshot fuel m :
  exists m',
    for_loop uint8 256
      (fun count m => Returned (store8 m (base + count) (f count))) fuel 0 m
    = Running m'
    /\ (forall i, 0 <= i < 256 -> i < Z.of_nat fuel ->
          load8 m' (base + i) = uint8 (f i))
    /\ (forall a, a < base \/ base + 256 <= a -> load8 m' a = load8 m a).
Proof.
  destruct (uint8_table_loop fuel 0 m ltac:(lia)) as (m' & Hrun & Hcell & Hvis).
  exists m'. split; [exact Hrun|]. split.
  - intros i Hi Hfuel.
    specialize (Hvis i ltac:(lia)).
    rewrite Z.add_0_l, (uint8_small i Hi) in Hvis. exact Hvis.
  - intros a Ha. destruct (Hcell a) as [H|(i & Hi & Heq & _)]; [exact H | lia].
Qed.

Lemma uint8_table_never_returns fuel m m' :
  for_loop uint8 256
    (fun count m => Returned (store8 m (base + count) (f count))) fuel 0 m
  <> Returned m'.
Proof.
  destruct (uint8_table_snapshot fuel m) as (m'' & Hrun & _).
  rewrite Hrun. discriminate.
Qed.

End Uint8Table.

(** ** Loops that return *)

(** An invariant rule for [for (uint32_t c = ...; c < bound; c++)] given more
    fuel than iterations. *)
Lemma for_loop_uint32_returns (I : Z -> mem -> Prop) bound body :
  0 <= bound < 2 ^ 32 ->
  (forall c m, 0 <= c < bound -> I c m ->
     exists m', body c m = Returned m' /\ I (c + 1) m') ->
  forall fuel c m,
    0 <= c <= bound -> (Z.to_nat (bound - c) < fuel)%nat -> I c m ->
    exists m', for_loop uint32 bound body fuel c m = Returned m' /\ I bound m'.
Proof.
  intros Hb Hbody. induction fuel as [|fuel IH]; intros c m Hc Hfuel Hinv.
  - lia.
  - cbn [for_loop]. destruct (Z.ltb_spec c bound) as [Hlt|Hge].
    + destruct (Hbody c m ltac:(lia) Hinv) as (m1 & -> & Hinv1).
      rewrite uint32_small by lia.
      apply IH; [lia | lia | exact Hinv1].
    + exists m. assert (c = bound) by lia. subst c. auto.
Qed.

(** ** The nybble-combination table *)

Lemma to_int_small z : 0 <= z < 2 ^ 31 -> to_int z = z.
Proof.
  intros H. unfold to_int. cbv zeta. rewrite uint32_small by lia.
  destruct (Z.ltb_spec z (2 ^ 31)); [reflexivity | lia].
Qed.

Lemma nybble_pair_is_byte h l :
  0 <= h < 16 -> 0 <= l < 16 ->
  uint8 (Z.lor (Z.shiftl h 4) l) = Z.lor (Z.shiftl h 4) l.
Proof.
  intros Hh Hl.
  pose (P := fun h => forallb
                 (fun l => uint8 (Z.lor (Z.shiftl h 4) l) =? Z.lor (Z.shiftl h 4) l)
                 (map Z.of_nat (seq 0 16))).
  assert (HP : P h = true) by (apply (forall_below P 16); [vm_compute; reflexivity | lia]).
  apply Z.eqb_eq.
  apply (forall_below _ 16 HP). lia.
Qed.

Section Combine.

Variable base : Z.
Variable fuel : nat.
Hypothesis enough : (16 < fuel)%nat.

(** Innermost loop: the sixteen copies for one pair of nybbles. *)
Lemma combine_dup_loop h l m :
  0 <= h < 16 -> 0 <= l < 16 ->
  exists m',
    for_loop uint32 16 (fun dup_count m =>
        let idx := to_int ((dup_count * 16) + (l * 1) + (h * 256)) in
        let target_value := uint8 (Z.lor (Z.shiftl h 4) l) in
        Returned (store8 m (base + idx) target_value)) fuel 0 m
    = Returned m'
    /\ (forall d, 0 <= d < 16 ->
          load8 m' (base + (h * 256 + d * 16 + l)) = Z.lor (Z.shiftl h 4) l)
    /\ (forall a, (forall d, 0 <= d < 16 -> a <> base + (h * 256 + d * 16 + l)) ->
          load8 m' a = load8 m a).
Proof.
  intros Hh Hl.
  apply (for_loop_uint32_returns
           (fun c m' =>
              (forall d, 0 <= d < c ->
                 load8 m' (base + (h * 256 + d * 16 + l)) = Z.lor (Z.shiftl h 4) l)
              /\ (forall a, (forall d, 0 <= d < c -> a <> base + (h * 256 + d * 16 + l)) ->
                    load8 m' a = load8 m a))); try lia.
  - intros c m1 Hc [Hdone Hframe]. eexists. split; [reflexivity|].
    cbv zeta. rewrite to_int_small by lia.
    rewrite (nybble_pair_is_byte h l Hh Hl).
    split.
    + intros d Hd. destruct (Z.eq_dec d c) as [->|Hne].
      * replace (base + (c * 16 + l * 1 + h * 256))
          with (base + (h * 256 + c * 16 + l)) by lia.
        rewrite load8_store8_same. apply nybble_pair_is_byte; assumption.
      * rewrite load8_store8_other by lia. apply Hdone. lia.
    + intros a Ha. rewrite load8_store8_other.
      * apply Hframe. intros d Hd. apply Ha. lia.
      * specialize (Ha c ltac:(lia)). lia.
  - split; [intros; lia | reflexivity].
Qed.

(** Middle loop: all low nybbles for one high nybble. *)
Lemma combine_low_loop h m :
  0 <= h < 16 ->
  exists m',
    for_loop uint32 16 (fun low_nybble m =>
      for_loop uint32 16 (fun dup_count m =>
        let idx := to_int ((dup_count * 16) + (low_nybble * 1) + (h * 256)) in
        let target_value := uint8 (Z.lor (Z.shiftl h 4) low_nybble) in
        Returned (store8 m (base + idx) target_value)) fuel 0 m) fuel 0 m
    = Returned m'
    /\ (forall l d, 0 <= l < 16 -> 0 <= d < 16 ->
          load8 m' (base + (h * 256 + d * 16 + l)) = Z.lor (Z.shiftl h 4) l)
    /\ (forall a, (forall l d, 0 <= l < 16 -> 0 <= d < 16 ->
                     a <> base + (h * 256 + d * 16 + l)) ->
          load8 m' a = load8 m a).
Proof.
  intros Hh.
  apply (for_loop_uint32_returns
           (fun c m' =>
              (forall l d, 0 <= l < c -> 0 <= d < 16 ->
                 load8 m' (base + (h * 256 + d * 16 + l)) = Z.lor (Z.shiftl h 4) l)
              /\ (forall a, (forall l d, 0 <= l < c -> 0 <= d < 16 ->
                               a <> base + (h * 256 + d * 16 + l)) ->
                    load8 m' a = load8 m a))); try lia.
  - intros c m1 Hc [Hdone Hframe].
    destruct (combine_dup_loop h c m1 Hh ltac:(lia)) as (m2 & -> & Hnew & Hkeep).
    exists m2. split; [reflexivity|]. split.
    + intros l d Hl Hd. destruct (Z.eq_dec l c) as [->|Hne].
      * apply Hnew. exact Hd.
      * rewrite Hkeep; [apply Hdone; lia|]. intros d' Hd'. lia.
    + intros a Ha. rewrite Hkeep.
      * apply Hframe. intros l d Hl Hd. apply Ha; lia.
      * intros d Hd. apply Ha; lia.
  - split; [intros; lia | reflexivity].
Qed.

(** The whole function: it returns, every entry [hi*256 + pad*16 + lo] holds
    [(hi << 4) | lo], and no byte outside [base .. base+4095] changes. *)
Lemma setup_low_nybble_low_nybble_to_byte_spec m :
  exists m',
    setup_low_nybble_low_nybble_to_byte fuel base m = Returned m'
    /\ (forall h l d, 0 <= h < 16 -> 0 <= l < 16 -> 0 <= d < 16 ->
          load8 m' (base + (h * 256 + d * 16 + l)) = Z.lor (Z.shiftl h 4) l)
    /\ (forall a, a < base \/ base + 4096 <= a -> load8 m' a = load8 m a).
Proof.
  unfold setup_low_nybble_low_nybble_to_byte.
  destruct (for_loop_uint32_returns
           (fun c m' =>
              (forall h l d, 0 <= h < c -> 0 <= l < 16 -> 0 <= d < 16 ->
                 load8 m' (base + (h * 256 + d * 16 + l)) = Z.lor (Z.shiftl h 4) l)
              /\ (forall a, (forall h l d, 0 <= h < c -> 0 <= l < 16 -> 0 <= d < 16 ->
                               a <> base + (h * 256 + d * 16 + l)) ->
                    load8 m' a = load8 m a))
           16
           (fun high_nybble m =>
              for_loop uint32 16 (fun low_nybble m =>
                for_loop uint32 16 (fun dup_count m =>
                  let idx := to_int ((dup_count * 16) + (low_nybble * 1)
                                     + (high_nybble * 256)) in
                  let target_value :=
                    uint8 (Z.lor (Z.shiftl high_nybble 4) low_nybble) in
                  Returned (store8 m (base + idx) target_value))
                fuel 0 m)
              fuel 0 m))
    with fuel 0 m as (m' & Hrun & Hdone & Hframe); try lia.
  - intros c m1 Hc [Hdone Hframe].
    destruct (combine_low_loop c m1 ltac:(lia)) as (m2 & -> & Hnew & Hkeep).
    exists m2. split; [reflexivity|]. split.
    + intros h l d Hh Hl Hd. destruct (Z.eq_dec h c) as [->|Hne].
      * apply Hnew; assumption.
      * rewrite Hkeep; [apply Hdone; lia|]. intros l' d' Hl' Hd'. lia.
    + intros a Ha. rewrite Hkeep.
      * apply Hframe. intros h l d Hh Hl Hd. apply Ha; lia.
      * intros l d Hl Hd. apply Ha; lia.
  - split; [intros; lia | reflexivity].
  - exists m'. split; [exact Hrun|]. split.
    + intros h l d Hh Hl Hd. apply Hdone; lia.
    + intros a Ha. apply Hframe. intros h l d Hh Hl Hd. lia.
Qed.

End Combine.

(** ** Table builders: claims *)

(** C5: once [setup_low_nybble_low_nybble_to_byte] has populated its 16x256
    table, the entry at index [hi*256 + pad*16 + lo] is [(hi << 4) | lo] for
    every [hi], [lo] and [pad] in 0..15, so the sixteen values of the unused
    upper nybble of the low operand all give the same result.  The function
    returns as soon as the fuel exceeds the sixteen iterations of a loop. *)
Theorem nybble_low_combine_entries (fuel : nat) (base : Z) (m : mem) (hi lo pad : Z) :
  (16 < fuel)%nat ->
  0 <= hi < 16 -> 0 <= lo < 16 -> 0 <= pad < 16 ->
  exists m',
    setup_low_nybble_low_nybble_to_byte fuel base m = Returned m'
    /\ load8 m' (base + (hi * 256 + pad * 16 + lo)) = Z.lor (Z.shiftl hi 4) lo.
Proof.
  intros Hfuel Hhi Hlo Hpad.
  destruct (setup_low_nybble_low_nybble_to_byte_spec base fuel Hfuel m)
    as (m' & Hrun & Hentries & _).
  exists m'. split; [exact Hrun|]. apply Hentries; assumption.
Qed.

Lemma nybble_low_combine_entries_witness :
  exists m',
    setup_low_nybble_low_nybble_to_byte 17 0x20001000 zero_mem = Returned m'
    /\ load8 m' (0x20001000 + (0xA * 256 + 0x7 * 16 + 0x5)) = Z.lor (Z.shiftl 0xA 4) 0x5.
Proof.
  apply (nybble_low_combine_entries 17 0x20001000 zero_mem 0xA 0x5 0x7); lia.
Defined.

(** C3, as amended: the building phase returns for
    [setup_low_nybble_low_nybble_to_byte] (seventeen units of fuel suffice
    for any base and store) and for [build_add8_using_nybbles] (straight-line
    code, a total function of its arguments); [build_lut8_add] is an
    unimplemented stub that spins in [while(1)] and is still running however
    much fuel it is given. *)
Theorem building_phase_returns :
  (forall base m, exists m',
      setup_low_nybble_low_nybble_to_byte 17 base m = Returned m')
  /\ (forall scratch descs opa opb result m, exists m',
        build_add8_using_nybbles scratch descs opa opb result m = m')
  /\ (forall fuel base m, build_lut8_add fuel base m = Running m).
Proof.
  split; [|split].
  - intros base m.
    destruct (setup_low_nybble_low_nybble_to_byte_spec base 17 ltac:(lia) m)
      as (m' & Hrun & _).
    exists m'. exact Hrun.
  - intros. eexists. reflexivity.
  - intros fuel base m. apply while_true_running.
Qed.

(** C3, counterexample: called on a table at address 0 in an all-zero store,
    [build_lut8_add] returns for no amount of fuel. *)
Lemma build_lut8_add_never_returns :
  ~ (exists fuel m', build_lut8_add fuel 0 zero_mem = Returned m').
Proof.
  intros (fuel & m' & H). unfold build_lut8_add in H.
  rewrite while_true_running in H. discriminate.
Qed.

(** C8, as amended: a table builder receives the base pointer only and makes
    no size check.  [setup_low_nybble_low_nybble_to_byte] returns normally
    having stored all 4096 entries [base[0] .. base[4095]], whatever storage
    the caller owns at [base], and leaves every byte outside that range as it
    was. *)
Theorem combine_builder_writes_4096_unchecked (fuel : nat) (base : Z) (m : mem) :
  (16 < fuel)%nat ->
  exists m',
    setup_low_nybble_low_nybble_to_byte fuel base m = Returned m'
    /\ (forall k, 0 <= k < 4096 ->
          load8 m' (base + k) = Z.lor (Z.shiftl (k / 256) 4) (k mod 16))
    /\ (forall a, a < base \/ base + 4096 <= a -> load8 m' a = load8 m a).
Proof.
  intros Hfuel.
  destruct (setup_low_nybble_low_nybble_to_byte_spec base fuel Hfuel m)
    as (m' & Hrun & Hentries & Hframe).
  exists m'. split; [exact Hrun|]. split; [|exact Hframe].
  intros k Hk.
  replace (base + k)
    with (base + (k / 256 * 256 + (k / 16) mod 16 * 16 + k mod 16)).
  - apply Hentries.
    + split; [apply Z.div_pos; lia | apply Z.div_lt_upper_bound; lia].
    + apply Z.mod_pos_bound; lia.
    + apply Z.mod_pos_bound; lia.
  - f_equal.
    pose proof (Z.div_mod k 16 ltac:(lia)) as H1.
    pose proof (Z.div_mod (k / 16) 16 ltac:(lia)) as H2.
    rewrite Z.div_div in H2 by lia. change (16 * 16) with 256 in H2.
    lia.
Qed.

Lemma combine_builder_writes_4096_unchecked_witness :
  exists m',
    setup_low_nybble_low_nybble_to_byte 17 0x20001000 zero_mem = Returned m'
    /\ (forall k, 0 <= k < 4096 ->
          load8 m' (0x20001000 + k) = Z.lor (Z.shiftl (k / 256) 4) (k mod 16))
    /\ (forall a, a < 0x20001000 \/ 0x20001000 + 4096 <= a ->
          load8 m' a = load8 zero_mem a).
Proof.
  apply (combine_builder_writes_4096_unchecked 17 0x20001000 zero_mem); lia.
Defined.

(** C8, counterexample: the caller owns the sixteen bytes
    [0x20000000 .. 0x2000000F] of an all-zero store.  The builder reports
    nothing and returns, and the byte 4095 places after the base, far past
    the sixteen-byte buffer, has changed from 0 to 0xFF. *)
Lemma combine_builder_overruns_short_buffer :
  exists m',
    setup_low_nybble_low_nybble_to_byte 17 0x20000000 zero_mem = Returned m'
    /\ 0x20000000 + 16 <= 0x20000000 + 4095
    /\ load8 zero_mem (0x20000000 + 4095) = 0
    /\ load8 m' (0x20000000 + 4095) = 0xFF.
Proof.
  destruct (setup_low_nybble_low_nybble_to_byte_spec 0x20000000 17 ltac:(lia) zero_mem)
    as (m' & Hrun & Hentries & _).
  exists m'. split; [exact Hrun|]. split; [lia|]. split; [reflexivity|].
  exact (Hentries 15 15 15 ltac:(lia) ltac:(lia) ltac:(lia)).
Qed.

Lemma table_of_snapshot (f : Z -> Z) (base : Z) (m : mem) :
  (forall i, 0 <= i < 256 -> load8 m (base + i) = uint8 (f i)) ->
  table_of base m = map (fun i => uint8 (f (Z.of_nat i))) (seq 0 256).
Proof.
  intros H. unfold table_of. apply map_ext_in.
  intros n Hn. apply in_seq in Hn. apply H. lia.
Qed.

(** What the four addition builders store, against the entries the
    specification gives. *)
Lemma nybble_sum_entry (carry_in i : Z) :
  0 <= carry_in <= 1 -> 0 <= i < 256 ->
  uint8 (Z.land (Z.land (Z.shiftr i 4) 0x0f + Z.land i 0x0f + carry_in) 0x0f)
  = Z.land (Z.land (Z.shiftr i 4) 0xF + Z.land i 0xF + carry_in) 0x0F.
Proof.
  intros Hc Hi. apply Z.eqb_eq.
  assert (carry_in = 0 \/ carry_in = 1) as [-> | ->] by lia.
  - apply (forall_below (fun i =>
      uint8 (Z.land (Z.land (Z.shiftr i 4) 0x0f + Z.land i 0x0f + 0) 0x0f)
      =? Z.land (Z.land (Z.shiftr i 4) 0xF + Z.land i 0xF + 0) 0x0F) 256);
      [vm_compute; reflexivity | lia].
  - apply (forall_below (fun i =>
      uint8 (Z.land (Z.land (Z.shiftr i 4) 0x0f + Z.land i 0x0f + 1) 0x0f)
      =? Z.land (Z.land (Z.shiftr i 4) 0xF + Z.land i 0xF + 1) 0x0F) 256);
      [vm_compute; reflexivity | lia].
Qed.

Lemma nybble_carry_entry (carry_in i : Z) :
  0 <= carry_in <= 1 -> 0 <= i < 256 ->
  uint8 (Z.shiftr
           (Z.land (Z.land (Z.shiftr i 4) 0x0f + Z.land i 0x0f + carry_in) 0x10) 4)
  = Z.land (Z.shiftr (Z.land (Z.shiftr i 4) 0xF + Z.land i 0xF + carry_in) 4) 0x01.
Proof.
  intros Hc Hi. apply Z.eqb_eq.
  assert (carry_in = 0 \/ carry_in = 1) as [-> | ->] by lia.
  - apply (forall_below (fun i =>
      uint8 (Z.shiftr
               (Z.land (Z.land (Z.shiftr i 4) 0x0f + Z.land i 0x0f + 0) 0x10) 4)
      =? Z.land (Z.shiftr (Z.land (Z.shiftr i 4) 0xF + Z.land i 0xF + 0) 4) 0x01) 256);
      [vm_compute; reflexivity | lia].
  - apply (forall_below (fun i =>
      uint8 (Z.shiftr
               (Z.land (Z.land (Z.shiftr i 4) 0x0f + Z.land i 0x0f + 1) 0x10) 4)
      =? Z.land (Z.shiftr (Z.land (Z.shiftr i 4) 0xF + Z.land i 0xF + 1) 4) 0x01) 256);
      [vm_compute; reflexivity | lia].
Qed.

Ltac tables_differ H :=
  apply (f_equal (fun l => (nth 0 l 0, nth 2 l 0, nth 15 l 0))) in H;
  vm_compute in H; discriminate H.

(** C4: there are four nybble-addition tables, pairwise different in
    content: sum and carry-out, each for carry-in 0 and 1.  With
    [hi = (i>>4)&0xF] and [lo = i&0xF], the sum builder for [carry_in] stores
    [(hi + lo + carry_in) & 0x0F] at entry [i] and the carry-out builder
    stores [((hi + lo + carry_in) >> 4) & 0x01], for every [i] in 0..255.
    The entries are read from the store the builder is working on once its
    counter has been through all 256 values; the builders themselves are
    still running then, as their [uint8_t] counter never reaches 256. *)
Theorem nybble_add_tables_entries (fuel : nat) (base : Z) (m : mem) :
  (256 <= fuel)%nat ->
  exists sum0 sum1 carry0 carry1,
    setup_nybble_add_no_carryin fuel base m = Running sum0
    /\ setup_nybble_add_with_carryin fuel base m = Running sum1
    /\ Carryout.setup_nybble_add_no_carryin fuel base m = Running carry0
    /\ Carryout.setup_nybble_add_with_carryin fuel base m = Running carry1
    /\ (forall i, 0 <= i < 256 ->
          let hi := Z.land (Z.shiftr i 4) 0xF in
          let lo := Z.land i 0xF in
          load8 sum0 (base + i) = Z.land (hi + lo + 0) 0x0F
          /\ load8 sum1 (base + i) = Z.land (hi + lo + 1) 0x0F
          /\ load8 carry0 (base + i) = Z.land (Z.shiftr (hi + lo + 0) 4) 0x01
          /\ load8 carry1 (base + i) = Z.land (Z.shiftr (hi + lo + 1) 4) 0x01)
    /\ NoDup [table_of base sum0; table_of base sum1;
              table_of base carry0; table_of base carry1].
Proof.
  intros Hfuel.
  destruct (uint8_table_snapshot
              (fun c => Z.land (Z.land (Z.shiftr c 4) 0x0f + Z.land c 0x0f) 0x0f)
              base fuel m) as (sum0 & Hs0 & Es0 & _).
  destruct (uint8_table_snapshot
              (fun c => Z.land (Z.land (Z.shiftr c 4) 0x0f + Z.land c 0x0f + 1) 0x0f)
              base fuel m) as (sum1 & Hs1 & Es1 & _).
  destruct (uint8_table_snapshot
              (fun c => Z.shiftr
                 (Z.land (Z.land (Z.shiftr c 4) 0x0f + Z.land c 0x0f) 0x10) 4)
              base fuel m) as (carry0 & Hc0 & Ec0 & _).
  destruct (uint8_table_snapshot
              (fun c => Z.shiftr
                 (Z.land (Z.land (Z.shiftr c 4) 0x0f + Z.land c 0x0f + 1) 0x10) 4)
              base fuel m) as (carry1 & Hc1 & Ec1 & _).
  assert (Fs0 : forall i, 0 <= i < 256 -> load8 sum0 (base + i) = _)
    by (intros i Hi; apply (Es0 i Hi); lia).
  assert (Fs1 : forall i, 0 <= i < 256 -> load8 sum1 (base + i) = _)
    by (intros i Hi; apply (Es1 i Hi); lia).
  assert (Fc0 : forall i, 0 <= i < 256 -> load8 carry0 (base + i) = _)
    by (intros i Hi; apply (Ec0 i Hi); lia).
  assert (Fc1 : forall i, 0 <= i < 256 -> load8 carry1 (base + i) = _)
    by (intros i Hi; apply (Ec1 i Hi); lia).
  exists sum0, sum1, carry0, carry1.
  repeat (split; [assumption|]). split.
  - intros i Hi hi lo. subst hi lo.
    pose proof (nybble_sum_entry 0 i ltac:(lia) Hi) as S0.
    pose proof (nybble_sum_entry 1 i ltac:(lia) Hi) as S1.
    pose proof (nybble_carry_entry 0 i ltac:(lia) Hi) as C0.
    pose proof (nybble_carry_entry 1 i ltac:(lia) Hi) as C1.
    rewrite Z.add_0_r in S0, C0. rewrite !Z.add_0_r.
    rewrite (Fs0 i Hi), (Fs1 i Hi), (Fc0 i Hi), (Fc1 i Hi).
    repeat split; assumption.
  - rewrite (table_of_snapshot _ base sum0 Fs0), (table_of_snapshot _ base sum1 Fs1),
            (table_of_snapshot _ base carry0 Fc0), (table_of_snapshot _ base carry1 Fc1).
    repeat constructor; simpl; intros H;
      repeat (destruct H as [H|H]; [tables_differ H|]); exact H.
Qed.

Lemma nybble_add_tables_entries_witness :
  exists sum0 sum1 carry0 carry1,
    setup_nybble_add_no_carryin 256 0x20002000 zero_mem = Running sum0
    /\ setup_nybble_add_with_carryin 256 0x20002000 zero_mem = Running sum1
    /\ Carryout.setup_nybble_add_no_carryin 256 0x20002000 zero_mem = Running carry0
    /\ Carryout.setup_nybble_add_with_carryin 256 0x20002000 zero_mem = Running carry1
    /\ (forall i, 0 <= i < 256 ->
          let hi := Z.land (Z.shiftr i 4) 0xF in
          let lo := Z.land i 0xF in
          load8 sum0 (0x20002000 + i) = Z.land (hi + lo + 0) 0x0F
          /\ load8 sum1 (0x20002000 + i) = Z.land (hi + lo + 1) 0x0F
          /\ load8 carry0 (0x20002000 + i) = Z.land (Z.shiftr (hi + lo + 0) 4) 0x01
          /\ load8 carry1 (0x20002000 + i) = Z.land (Z.shiftr (hi + lo + 1) 4) 0x01)
    /\ NoDup [table_of 0x20002000 sum0; table_of 0x20002000 sum1;
              table_of 0x20002000 carry0; table_of 0x20002000 carry1].
Proof.
  apply (nybble_add_tables_entries 256 0x20002000 zero_mem). lia.
Defined.

(** The four extraction loops store the entries of the specification: in the
    store a builder is working on, once its counter has been through all 256
    values, entry [i] is [i & 0x0F], [(i << 4) & 0xF0], [i & 0xF0] and
    [(i >> 4) & 0x0F] respectively. *)
Lemma nybble_extraction_tables_in_flight (fuel : nat) (base : Z) (m : mem) :
  (256 <= fuel)%nat ->
  exists ll lh hh hl,
    setup_low_nybble_to_low_nybble fuel base m = Running ll
    /\ setup_low_nybble_to_high_nybble fuel base m = Running lh
    /\ setup_high_nybble_to_high_nybble fuel base m = Running hh
    /\ setup_high_nybble_to_low_nybble fuel base m = Running hl
    /\ forall i, 0 <= i < 256 ->
         load8 ll (base + i) = Z.land i 0x0F
         /\ load8 lh (base + i) = Z.land (Z.shiftl i 4) 0xF0
         /\ load8 hh (base + i) = Z.land i 0xF0
         /\ load8 hl (base + i) = Z.land (Z.shiftr i 4) 0x0F.
Proof.
  intros Hfuel.
  destruct (uint8_table_snapshot (fun c => Z.land (Z.shiftl c 0) 0x0f) base fuel m)
    as (ll & Hll & Ell & _).
  destruct (uint8_table_snapshot (fun c => Z.land (Z.shiftl c 4) 0xf0) base fuel m)
    as (lh & Hlh & Elh & _).
  destruct (uint8_table_snapshot (fun c => Z.land (Z.shiftl c 0) 0xf0) base fuel m)
    as (hh & Hhh & Ehh & _).
  destruct (uint8_table_snapshot (fun c => Z.land (Z.shiftr c 4) 0x0f) base fuel m)
    as (hl & Hhl & Ehl & _).
  exists ll, lh, hh, hl. repeat (split; [assumption|]).
  intros i Hi.
  rewrite (Ell i Hi), (Elh i Hi), (Ehh i Hi), (Ehl i Hi) by lia.
  repeat split; apply Z.eqb_eq.
  - apply (forall_below
             (fun i => uint8 (Z.land (Z.shiftl i 0) 0x0f) =? Z.land i 0x0F) 256);
      [vm_compute; reflexivity | lia].
  - apply (forall_below
             (fun i => uint8 (Z.land (Z.shiftl i 4) 0xf0) =? Z.land (Z.shiftl i 4) 0xF0) 256);
      [vm_compute; reflexivity | lia].
  - apply (forall_below
             (fun i => uint8 (Z.land (Z.shiftl i 0) 0xf0) =? Z.land i 0xF0) 256);
      [vm_compute; reflexivity | lia].
  - apply (forall_below
             (fun i => uint8 (Z.land (Z.shiftr i 4) 0x0f) =? Z.land (Z.shiftr i 4) 0x0F) 256);
      [vm_compute; reflexivity | lia].
Qed.

(** C6: the claim speaks of the tables after the four extraction builders
    have run.  None of the four gets that far: the loop counter is a
    [uint8_t] compared against 256, so for every amount of fuel, every base
    and every store each builder is still running. *)
Theorem nybble_extraction_builders_never_return (fuel : nat) (base : Z) (m : mem) :
  (exists m', setup_low_nybble_to_low_nybble fuel base m = Running m')
  /\ (exists m', setup_low_nybble_to_high_nybble fuel base m = Running m')
  /\ (exists m', setup_high_nybble_to_high_nybble fuel base m = Running m')
  /\ (exists m', setup_high_nybble_to_low_nybble fuel base m = Running m').
Proof.
  destruct (uint8_table_snapshot (fun c => Z.land (Z.shiftl c 0) 0x0f) base fuel m)
    as (ll & Hll & _).
  destruct (uint8_table_snapshot (fun c => Z.land (Z.shiftl c 4) 0xf0) base fuel m)
    as (lh & Hlh & _).
  destruct (uint8_table_snapshot (fun c => Z.land (Z.shiftl c 0) 0xf0) base fuel m)
    as (hh & Hhh & _).
  destruct (uint8_table_snapshot (fun c => Z.land (Z.shiftr c 4) 0x0f) base fuel m)
    as (hl & Hhl & _).
  repeat split; eexists; eassumption.
Qed.

(** The remaining [uint8_t] loop, [setup_nybble_compare_equal], is in the
    same position. *)
Lemma setup_nybble_compare_equal_never_returns fuel base a b m :
  exists m', setup_nybble_compare_equal fuel base a b m = Running m'.
Proof.
  destruct (uint8_table_snapshot
              (fun c => if Z.land c 0x0f =? Z.land (Z.shiftr c 4) 0x0f then a else b)
              base fuel m) as (m' & H & _).
  exists m'. exact H.
Qed.

(** ** The add8 chain: what the builder writes *)

Ltac unfold_layout :=
  unfold build_add8_using_nybbles, ptr_add,
    addr_BTCTRL, addr_BTCNT, addr_SRCADDR, addr_DSTADDR, addr_DESCADDR,
    desc_addr, sizeof_DmacDescriptor, sizeof_SRCADDR,
    offsetof_BTCTRL, offsetof_BTCNT, offsetof_SRCADDR, offsetof_DSTADDR,
    offsetof_DESCADDR in *;
  cbv zeta.

Section Add8Fields.

Variable scratch : Z.
Variables descs opa opb result : Z.
Variable m : mem.

Let m' := build_add8_using_nybbles scratch descs opa opb result m.

(** The address fields the call assigns, read back as 32-bit values. *)
Lemma add8_DSTADDR_0 : load32 m' (addr_DSTADDR descs 0) = uint32 (addr_SRCADDR descs 2).
Proof. subst m'. unfold_layout. mem_simpl. reflexivity. Qed.

Lemma add8_DSTADDR_1 :
  load32 m' (addr_DSTADDR descs 1)
  = uint32 (addr_SRCADDR descs 2 + 1 * sizeof_SRCADDR).
Proof. subst m'. unfold_layout. mem_simpl. reflexivity. Qed.

Lemma add8_DSTADDR_2 : load32 m' (addr_DSTADDR descs 2) = uint32 (scratch + 2).
Proof. subst m'. unfold_layout. mem_simpl. reflexivity. Qed.

Lemma add8_DESCADDR_0 : load32 m' (addr_DESCADDR descs 0) = uint32 (desc_addr descs 1).
Proof. subst m'. unfold_layout. mem_simpl. reflexivity. Qed.

Lemma add8_DESCADDR_1 : load32 m' (addr_DESCADDR descs 1) = uint32 (desc_addr descs 2).
Proof. subst m'. unfold_layout. mem_simpl. reflexivity. Qed.

Lemma add8_DESCADDR_2 : load32 m' (addr_DESCADDR descs 2) = uint32 (desc_addr descs 2).
Proof. subst m'. unfold_layout. mem_simpl. reflexivity. Qed.

Hypothesis opa_apart : opa < descs \/ descs + 3 * sizeof_DmacDescriptor <= opa.
Hypothesis opb_apart : opb < descs \/ descs + 3 * sizeof_DmacDescriptor <= opb.

Lemma add8_SRCADDR_0 : load32 m' (addr_SRCADDR descs 0) = load8 m opa.
Proof.
  subst m'. unfold_layout. mem_simpl.
  apply uint32_small. pose proof (load8_range m opa). lia.
Qed.

Lemma add8_SRCADDR_1 : load32 m' (addr_SRCADDR descs 1) = load8 m opb.
Proof.
  subst m'. unfold_layout. mem_simpl.
  apply uint32_small. pose proof (load8_range m opb). lia.
Qed.

End Add8Fields.

(** ** The add8 chain: claims *)

(** C2: the claim is a linear chain ending in a null link.  The first two
    links are as claimed ([descs[0]] to [descs[1]], [descs[1]] to
    [descs[2]]), but the last descriptor the function fills in,
    [descs[2]], is given [&descs[2]] as its next-descriptor link: it points
    at itself and is not null, so the chain is cyclic. *)
Theorem add8_chain_last_link_is_self
        (scratch descs opa opb result : Z) (m : mem) :
  0 <= descs -> descs + 3 * sizeof_DmacDescriptor <= 2 ^ 32 ->
  let m' := build_add8_using_nybbles scratch descs opa opb result m in
  load32 m' (addr_DESCADDR descs 0) = desc_addr descs 1
  /\ load32 m' (addr_DESCADDR descs 1) = desc_addr descs 2
  /\ load32 m' (addr_DESCADDR descs 2) = desc_addr descs 2
  /\ load32 m' (addr_DESCADDR descs 2) <> 0.
Proof.
  intros Hlo Hhi m'. subst m'.
  rewrite add8_DESCADDR_0, add8_DESCADDR_1, add8_DESCADDR_2.
  unfold desc_addr, sizeof_DmacDescriptor in *.
  rewrite !uint32_small by lia. repeat split; lia.
Qed.

Lemma add8_chain_last_link_is_self_witness :
  let m' := build_add8_using_nybbles Board.scratch Board.descs Board.opa
              Board.opb Board.result (Board.initial 0x3F 0x01) in
  load32 m' (addr_DESCADDR Board.descs 0) = desc_addr Board.descs 1
  /\ load32 m' (addr_DESCADDR Board.descs 1) = desc_addr Board.descs 2
  /\ load32 m' (addr_DESCADDR Board.descs 2) = desc_addr Board.descs 2
  /\ load32 m' (addr_DESCADDR Board.descs 2) <> 0.
Proof.
  apply (add8_chain_last_link_is_self Board.scratch Board.descs Board.opa
           Board.opb Board.result (Board.initial 0x3F 0x01));
    unfold Board.descs, sizeof_DmacDescriptor; lia.
Defined.

(** C9: the first descriptor's destination is the address of the third
    descriptor's source-address field, as claimed.  The second descriptor's
    destination is written [&descs[2].SRCADDR + 1]: pointer arithmetic on a
    pointer to the four-byte field, which is four bytes further on, the
    address of the third descriptor's destination-address field, and not the
    byte next to the first destination. *)
Theorem add8_second_destination_is_next_field
        (scratch descs opa opb result : Z) (m : mem) :
  0 <= descs -> descs + 3 * sizeof_DmacDescriptor <= 2 ^ 32 ->
  let m' := build_add8_using_nybbles scratch descs opa opb result m in
  load32 m' (addr_DSTADDR descs 0) = addr_SRCADDR descs 2
  /\ load32 m' (addr_DSTADDR descs 1) = addr_SRCADDR descs 2 + 4
  /\ load32 m' (addr_DSTADDR descs 1) = addr_DSTADDR descs 2
  /\ load32 m' (addr_DSTADDR descs 1) <> addr_SRCADDR descs 2 + 1.
Proof.
  intros Hlo Hhi m'. subst m'.
  rewrite add8_DSTADDR_0, add8_DSTADDR_1.
  unfold addr_SRCADDR, addr_DSTADDR, desc_addr, sizeof_DmacDescriptor,
    sizeof_SRCADDR, offsetof_SRCADDR, offsetof_DSTADDR in *.
  rewrite !uint32_small by lia. repeat split; lia.
Qed.

Lemma add8_second_destination_is_next_field_witness :
  let m' := build_add8_using_nybbles Board.scratch Board.descs Board.opa
              Board.opb Board.result (Board.initial 0x3F 0x01) in
  load32 m' (addr_DSTADDR Board.descs 0) = addr_SRCADDR Board.descs 2
  /\ load32 m' (addr_DSTADDR Board.descs 1) = addr_SRCADDR Board.descs 2 + 4
  /\ load32 m' (addr_DSTADDR Board.descs 1) = addr_DSTADDR Board.descs 2
  /\ load32 m' (addr_DSTADDR Board.descs 1) <> addr_SRCADDR Board.descs 2 + 1.
Proof.
  apply (add8_second_destination_is_next_field Board.scratch Board.descs
           Board.opa Board.opb Board.result (Board.initial 0x3F 0x01));
    unfold Board.descs, sizeof_DmacDescriptor; lia.
Defined.

(** C10: the source-address fields of the first and second descriptors
    receive the bytes stored at the operand locations when the function is
    called, [*opa] and [*opb], zero-extended to 32 bits (so below 256), and
    not the operand addresses.  The operands lie outside the three
    descriptors being filled in. *)
Theorem add8_sources_are_operand_values
        (scratch descs opa opb result : Z) (m : mem) :
  opa < descs \/ descs + 3 * sizeof_DmacDescriptor <= opa ->
  opb < descs \/ descs + 3 * sizeof_DmacDescriptor <= opb ->
  let m' := build_add8_using_nybbles scratch descs opa opb result m in
  load32 m' (addr_SRCADDR descs 0) = load8 m opa
  /\ load32 m' (addr_SRCADDR descs 1) = load8 m opb
  /\ 0 <= load32 m' (addr_SRCADDR descs 0) < 256
  /\ 0 <= load32 m' (addr_SRCADDR descs 1) < 256.
Proof.
  intros Ha Hb m'. subst m'.
  rewrite (add8_SRCADDR_0 scratch descs opa opb result m Ha).
  rewrite (add8_SRCADDR_1 scratch descs opa opb result m Hb).
  repeat split; try apply load8_range.
Qed.

Lemma add8_sources_are_operand_values_witness :
  let m' := build_add8_using_nybbles Board.scratch Board.descs Board.opa
              Board.opb Board.result (Board.initial 0x3F 0x01) in
  (load32 m' (addr_SRCADDR Board.descs 0) = load8 (Board.initial 0x3F 0x01) Board.opa
   /\ load32 m' (addr_SRCADDR Board.descs 1) = load8 (Board.initial 0x3F 0x01) Board.opb
   /\ 0 <= load32 m' (addr_SRCADDR Board.descs 0) < 256
   /\ 0 <= load32 m' (addr_SRCADDR Board.descs 1) < 256)
  /\ load8 (Board.initial 0x3F 0x01) Board.opa = 0x3F
  /\ load8 (Board.initial 0x3F 0x01) Board.opb = 0x01.
Proof.
  split.
  - apply (add8_sources_are_operand_values Board.scratch Board.descs Board.opa
             Board.opb Board.result (Board.initial 0x3F 0x01));
      unfold Board.descs, Board.opa, Board.opb, sizeof_DmacDescriptor; lia.
  - split; reflexivity.
Defined.

(** C7, as amended: every chain [build_add8_using_nybbles] builds uses the
    one function-static scratch array.  The third descriptor's destination
    is [&scratch[2]] whatever descriptor array, operand locations, result
    location and store the call is given, so any two chains share that
    scratch byte. *)
Theorem add8_scratch_is_shared
        (scratch : Z)
        (descs1 opa1 opb1 result1 : Z) (m1 : mem)
        (descs2 opa2 opb2 result2 : Z) (m2 : mem) :
  load32 (build_add8_using_nybbles scratch descs1 opa1 opb1 result1 m1)
         (addr_DSTADDR descs1 2) = uint32 (scratch + 2)
  /\ load32 (build_add8_using_nybbles scratch descs2 opa2 opb2 result2 m2)
            (addr_DSTADDR descs2 2) = uint32 (scratch + 2).
Proof. split; apply add8_DSTADDR_2. Qed.

(** C7, counterexample: two chains built in separate descriptor arrays for
    separate operand and result locations write their intermediate byte to
    the same address, [0x20000402]. *)
Lemma add8_two_chains_same_scratch :
  load32 (build_add8_using_nybbles Board.scratch 0x20000100
            0x20000200 0x20000201 0x20000202 zero_mem)
         (addr_DSTADDR 0x20000100 2) = 0x20000402
  /\ load32 (build_add8_using_nybbles Board.scratch 0x20000140
               0x20000210 0x20000211 0x20000212 zero_mem)
            (addr_DSTADDR 0x20000140 2) = 0x20000402.
Proof. split; rewrite add8_DSTADDR_2; reflexivity. Qed.

(** The call writes inside the first three descriptors only; in particular
    it stores nothing at [result] and builds no descriptor beyond
    [descs[2]]. *)
Lemma add8_builder_frame (scratch descs opa opb result : Z) (m : mem) (a : Z) :
  a < descs \/ descs + 3 * sizeof_DmacDescriptor <= a ->
  load8 (build_add8_using_nybbles scratch descs opa opb result m) a = load8 m a.
Proof. intros Ha. unfold_layout. mem_simpl. reflexivity. Qed.

(** ** The add8 chain: execution *)

Lemma dma_step_transfer (m : mem) (a : Z) (d : DmacDescriptor) :
  read_descriptor m a = d ->
  BTCTRL d = default_btctrl ->
  DESCADDR d <> 0 ->
  dma_step m a = (block_transfer d m, Fetch (DESCADDR d)).
Proof.
  intros Hd Hctl Hnext. unfold dma_step. rewrite Hd, Hctl, Z.eqb_refl.
  destruct (Z.eqb_spec (DESCADDR d) 0); [contradiction | reflexivity].
Qed.

(** Once the executor is at a descriptor that links to itself and copies a
    byte to [&scratch[0]], it stays there, and the byte at [Board.result]
    keeps its value. *)
Lemma add8_third_stage_repeats (n : nat) : forall m,
  read_descriptor m (desc_addr Board.descs 2)
  = mkDesc default_btctrl 2 0 Board.scratch (desc_addr Board.descs 2) ->
  load8 (fst (dma_run n m (desc_addr Board.descs 2))) Board.result
  = load8 m Board.result
  /\ snd (dma_run n m (desc_addr Board.descs 2)) = Fetch (desc_addr Board.descs 2).
Proof.
  induction n as [|n IH]; intros m Hd.
  - split; reflexivity.
  - cbn [dma_run].
    rewrite (dma_step_transfer m _ _ Hd); [| reflexivity | discriminate].
    cbn [DESCADDR].
    assert (Hblock : forall b, b <> Board.scratch ->
              load8 (block_transfer
                       (mkDesc default_btctrl 2 0 Board.scratch
                               (desc_addr Board.descs 2)) m) b
              = load8 m b).
    { intros b Hb. unfold block_transfer, beat. simpl.
      rewrite !load8_store8_other by exact Hb. reflexivity. }
    destruct (IH (block_transfer
                    (mkDesc default_btctrl 2 0 Board.scratch
                            (desc_addr Board.descs 2)) m)) as [Hres Hst].
    + transitivity (read_descriptor m (desc_addr Board.descs 2)); [|exact Hd].
      unfold read_descriptor, load32, load16.
      rewrite !Hblock by (vm_compute; discriminate). reflexivity.
    + split; [|exact Hst].
      rewrite Hres. apply Hblock. vm_compute. discriminate.
Qed.

(** C1: the chain the function emits does not add.  With operands [0x3F] and
    [0x01] in place and every other byte zero, run the emitted chain from
    [descs[0]] for any number of block transfers: the result byte is still
    0, not [0x40], and the chain has not completed.  The three descriptors
    copy a byte from address [0x3F], a byte from address [0x01] and then,
    over and over, a byte to [&scratch[0]]; no descriptor reads an addition
    table or names the result location. *)
Theorem add8_chain_never_writes_result :
  let m1 := build_add8_using_nybbles Board.scratch Board.descs Board.opa
              Board.opb Board.result (Board.initial 0x3F 0x01) in
  forall n,
    load8 (fst (dma_run n m1 Board.descs)) Board.result = 0
    /\ load8 (fst (dma_run n m1 Board.descs)) Board.result <> uint8 (0x3F + 0x01)
    /\ snd (dma_run n m1 Board.descs) <> Complete.
Proof.
  intros m1 n.
  assert (Hgoal : load8 (fst (dma_run n m1 Board.descs)) Board.result = 0
                  /\ snd (dma_run n m1 Board.descs) <> Complete).
  { destruct n as [|[|n]].
    - split; [vm_compute; reflexivity | discriminate].
    - cbn [dma_run].
      rewrite (dma_step_transfer m1 Board.descs
                 (mkDesc default_btctrl 1 0x3F (addr_SRCADDR Board.descs 2)
                         (desc_addr Board.descs 1)));
        [| vm_compute; reflexivity | reflexivity | discriminate].
      split; [vm_compute; reflexivity | discriminate].
    - cbn [dma_run].
      rewrite (dma_step_transfer m1 Board.descs
                 (mkDesc default_btctrl 1 0x3F (addr_SRCADDR Board.descs 2)
                         (desc_addr Board.descs 1)));
        [| vm_compute; reflexivity | reflexivity | discriminate].
      cbn [DESCADDR].
      set (m2 := block_transfer _ m1).
      rewrite (dma_step_transfer m2 (desc_addr Board.descs 1)
                 (mkDesc default_btctrl 1 0x01 (addr_DSTADDR Board.descs 2)
                         (desc_addr Board.descs 2)));
        [| vm_compute; reflexivity | reflexivity | discriminate].
      cbn [DESCADDR].
      set (m3 := block_transfer _ m2).
      destruct (add8_third_stage_repeats n m3) as [Hres Hst].
      + vm_compute. reflexivity.
      + rewrite Hres, Hst. split; [vm_compute; reflexivity | discriminate]. }
  destruct Hgoal as [Hres Hst]. split; [exact Hres|]. split; [|exact Hst].
  rewrite Hres. vm_compute. discriminate.
Qed.

(** * Further properties of the table builders *)

(** ** Reading the store a table loop is working on *)

Section Uint8TableStore.

Variable f : Z -> Z.
Variable base : Z.

Lemma uint8_table_entry (fuel : nat) (m : mem) (i : Z) :
  (256 <= fuel)%nat -> 0 <= i < 256 ->
  load8 (outcome_mem
           (for_loop uint8 256
              (fun count m => Returned (store8 m (base + count) (f count)))
              fuel 0 m)) (base + i)
  = uint8 (f i).
Proof.
  intros Hfuel Hi.
  destruct (uint8_table_snapshot f base fuel m) as (m' & -> & Hent & _).
  apply Hent; [exact Hi | lia].
Qed.

Lemma uint8_table_outside (fuel : nat) (m : mem) (a : Z) :
  a < base \/ base + 256 <= a ->
  load8 (outcome_mem
           (for_loop uint8 256
              (fun count m => Returned (store8 m (base + count) (f count)))
              fuel 0 m)) a
  = load8 m a.
Proof.
  intros Ha.
  destruct (uint8_table_snapshot f base fuel m) as (m' & -> & _ & Hout).
  apply Hout. exact Ha.
Qed.

Lemma uint8_table_stable (fuel : nat) (m : mem) (a : Z) :
  (256 <= fuel)%nat ->
  load8 (outcome_mem
           (for_loop uint8 256
              (fun count m => Returned (store8 m (base + count) (f count)))
              fuel 0 m)) a
  = load8 (outcome_mem
             (for_loop uint8 256
                (fun count m => Returned (store8 m (base + count) (f count)))
                256 0 m)) a.
Proof.
  intros Hfuel.
  destruct (Z_lt_dec a base) as [Hlo|Hlo];
    [rewrite !uint8_table_outside by lia; reflexivity|].
  destruct (Z_le_dec (base + 256) a) as [Hhi|Hhi];
    [rewrite !uint8_table_outside by lia; reflexivity|].
  replace a with (base + (a - base)) by lia.
  rewrite !uint8_table_entry by lia. reflexivity.
Qed.

End Uint8TableStore.

(** Enumeration over two bounded integers. *)
Lemma forall_below2 (P : Z -> Z -> bool) (n k : nat) :
  forallb (fun x => forallb (P x) (map Z.of_nat (seq 0 k)))
          (map Z.of_nat (seq 0 n)) = true ->
  forall x y, 0 <= x < Z.of_nat n -> 0 <= y < Z.of_nat k -> P x y = true.
Proof.
  intros H x y Hx Hy.
  apply (forall_below (P x) k); [|exact Hy].
  apply (forall_below (fun x => forallb (P x) (map Z.of_nat (seq 0 k))) n H x Hx).
Qed.

(** [enum_byte i]: settle an equation in the byte [i] by trying all 256. *)
Ltac enum_byte i :=
  apply Z.eqb_eq;
  match goal with
  | |- ?b = true =>
      let P := eval pattern i in b in
      match P with
      | ?F _ => apply (forall_below F 256); [vm_compute; reflexivity | lia]
      end
  end.

(** ** Entries of the nybble tables, in arithmetic form *)

Section TableEntries.

Variable fuel : nat.
Hypothesis round : (256 <= fuel)%nat.
Variable base : Z.
Variable m : mem.
Variable i : Z.
Hypothesis byte : 0 <= i < 256.

Lemma low_nybble_to_low_nybble_entry :
  load8 (outcome_mem (setup_low_nybble_to_low_nybble fuel base m)) (base + i)
  = i mod 16.
Proof.
  unfold setup_low_nybble_to_low_nybble.
  rewrite (uint8_table_entry (fun c => Z.land (Z.shiftl c 0) 0x0f)) by assumption.
  enum_byte i.
Qed.

Lemma low_nybble_to_high_nybble_entry :
  load8 (outcome_mem (setup_low_nybble_to_high_nybble fuel base m)) (base + i)
  = 16 * (i mod 16).
Proof.
  unfold setup_low_nybble_to_high_nybble.
  rewrite (uint8_table_entry (fun c => Z.land (Z.shiftl c 4) 0xf0)) by assumption.
  enum_byte i.
Qed.

Lemma high_nybble_to_high_nybble_entry :
  load8 (outcome_mem (setup_high_nybble_to_high_nybble fuel base m)) (base + i)
  = 16 * (i / 16).
Proof.
  unfold setup_high_nybble_to_high_nybble.
  rewrite (uint8_table_entry (fun c => Z.land (Z.shiftl c 0) 0xf0)) by assumption.
  enum_byte i.
Qed.

Lemma high_nybble_to_low_nybble_entry :
  load8 (outcome_mem (setup_high_nybble_to_low_nybble fuel base m)) (base + i)
  = i / 16.
Proof.
  unfold setup_high_nybble_to_low_nybble.
  rewrite (uint8_table_entry (fun c => Z.land (Z.shiftr c 4) 0x0f)) by assumption.
  enum_byte i.
Qed.

Lemma nybble_add_no_carryin_entry :
  load8 (outcome_mem (setup_nybble_add_no_carryin fuel base m)) (base + i)
  = (i / 16 + i mod 16) mod 16.
Proof.
  unfold setup_nybble_add_no_carryin.
  rewrite (uint8_table_entry
             (fun c => Z.land (Z.land (Z.shiftr c 4) 0x0f + Z.land c 0x0f) 0x0f))
    by assumption.
  enum_byte i.
Qed.

Lemma nybble_add_with_carryin_entry :
  load8 (outcome_mem (setup_nybble_add_with_carryin fuel base m)) (base + i)
  = (i / 16 + i mod 16 + 1) mod 16.
Proof.
  unfold setup_nybble_add_with_carryin.
  rewrite (uint8_table_entry
             (fun c => Z.land (Z.land (Z.shiftr c 4) 0x0f + Z.land c 0x0f + 1) 0x0f))
    by assumption.
  enum_byte i.
Qed.

Lemma nybble_carryout_no_carryin_entry :
  load8 (outcome_mem (Carryout.setup_nybble_add_no_carryin fuel base m)) (base + i)
  = (i / 16 + i mod 16) / 16.
Proof.
  unfold Carryout.setup_nybble_add_no_carryin.
  rewrite (uint8_table_entry
             (fun c => Z.shiftr
                (Z.land (Z.land (Z.shiftr c 4) 0x0f + Z.land c 0x0f) 0x10) 4))
    by assumption.
  enum_byte i.
Qed.

Lemma nybble_carryout_with_carryin_entry :
  load8 (outcome_mem (Carryout.setup_nybble_add_with_carryin fuel base m)) (base + i)
  = (i / 16 + i mod 16 + 1) / 16.
Proof.
  unfold Carryout.setup_nybble_add_with_carryin.
  rewrite (uint8_table_entry
             (fun c => Z.shiftr
                (Z.land (Z.land (Z.shiftr c 4) 0x0f + Z.land c 0x0f + 1) 0x10) 4))
    by assumption.
  enum_byte i.
Qed.

Lemma nybble_compare_equal_entry (a b : Z) :
  load8 (outcome_mem (setup_nybble_compare_equal fuel base a b m)) (base + i)
  = if i mod 16 =? i / 16 then uint8 a else uint8 b.
Proof.
  unfold setup_nybble_compare_equal.
  rewrite (uint8_table_entry
             (fun c => if Z.land c 0x0f =? Z.land (Z.shiftr c 4) 0x0f then a else b))
    by assumption.
  replace (Z.land i 0x0f) with (i mod 16) by enum_byte i.
  replace (Z.land (Z.shiftr i 4) 0x0f) with (i / 16) by enum_byte i.
  destruct (i mod 16 =? i / 16); reflexivity.
Qed.

End TableEntries.

Ltac enum_bool i :=
  match goal with
  | |- ?b = true =>
      let P := eval pattern i in b in
      match P with
      | ?F _ => apply (forall_below F 256); [vm_compute; reflexivity | lia]
      end
  end.

Lemma nybble_index_split (hi lo : Z) :
  0 <= hi < 16 -> 0 <= lo < 16 ->
  (hi * 16 + lo) / 16 = hi /\ (hi * 16 + lo) mod 16 = lo.
Proof.
  intros Hh Hl. rewrite Z.add_comm.
  rewrite Z.div_add, Z.mod_add by lia.
  rewrite Z.div_small, Z.mod_small by lia. lia.
Qed.

(** ** The comparison table *)

(** X1: in the store [setup_nybble_compare_equal] is working on, once its
    counter has passed through all 256 values, the entry for the nybble pair
    [(hi, lo)] is the byte [a] when the two nybbles are equal and the byte
    [b] otherwise.  The builder is still running then. *)
Theorem nybble_compare_equal_entries
        (fuel : nat) (base a b : Z) (m : mem) (hi lo : Z) :
  (256 <= fuel)%nat -> 0 <= hi < 16 -> 0 <= lo < 16 ->
  exists t,
    setup_nybble_compare_equal fuel base a b m = Running t
    /\ load8 t (base + (hi * 16 + lo)) = if hi =? lo then uint8 a else uint8 b.
Proof.
  intros Hfuel Hh Hl.
  destruct (setup_nybble_compare_equal_never_returns fuel base a b m) as (t & Ht).
  exists t. split; [exact Ht|].
  pose proof (nybble_compare_equal_entry fuel Hfuel base m (hi * 16 + lo)
                ltac:(lia) a b) as E.
  rewrite Ht in E. cbn [outcome_mem] in E. rewrite E.
  destruct (nybble_index_split hi lo Hh Hl) as [-> ->].
  rewrite Z.eqb_sym. reflexivity.
Qed.

Lemma nybble_compare_equal_entries_witness :
  exists t,
    setup_nybble_compare_equal 256 0x20003000 0xAA 0x55 zero_mem = Running t
    /\ load8 t (0x20003000 + (0x7 * 16 + 0x3))
       = if 0x7 =? 0x3 then uint8 0xAA else uint8 0x55.
Proof.
  apply (nybble_compare_equal_entries 256 0x20003000 0xAA 0x55 zero_mem 0x7 0x3); lia.
Defined.

(** X2: when the two output bytes differ, the entries of the comparison
    table that hold [a] are exactly the sixteen indices [0x00, 0x11, ...,
    0xFF], the multiples of 17. *)
Theorem nybble_compare_equal_diagonal
        (fuel : nat) (base a b : Z) (m : mem) (i : Z) :
  (256 <= fuel)%nat -> uint8 a <> uint8 b -> 0 <= i < 256 ->
  load8 (outcome_mem (setup_nybble_compare_equal fuel base a b m)) (base + i)
  = uint8 a
  <-> i mod 17 = 0.
Proof.
  intros Hfuel Hab Hi.
  rewrite (nybble_compare_equal_entry fuel Hfuel base m i Hi a b).
  assert (Hd : Bool.eqb (i mod 16 =? i / 16) (i mod 17 =? 0) = true)
    by enum_bool i.
  apply Bool.eqb_prop in Hd. rewrite Hd.
  destruct (Z.eqb_spec (i mod 17) 0) as [H0|H0].
  - tauto.
  - split; [intros E; symmetry in E; contradiction | contradiction].
Qed.

Lemma nybble_compare_equal_diagonal_witness :
  load8 (outcome_mem (setup_nybble_compare_equal 256 0x20003000 0xAA 0x55 zero_mem))
        (0x20003000 + 0x33)
  = uint8 0xAA
  <-> 0x33 mod 17 = 0.
Proof.
  apply (nybble_compare_equal_diagonal 256 0x20003000 0xAA 0x55 zero_mem 0x33);
    [lia | vm_compute; discriminate | lia].
Defined.

(** ** Bounds and stability of the [uint8_t] loops *)

(** X3: none of the nine builders with a [uint8_t] counter ever stores
    outside the 256 bytes of its table: after any number of iterations,
    every byte below [base] or from [base + 256] on is as it was. *)
Theorem uint8_builders_stay_in_table
        (a b : Z) (builder : nat -> Z -> mem -> outcome)
        (fuel : nat) (base : Z) (m : mem) (x : Z) :
  In builder (uint8_table_builders a b) ->
  x < base \/ base + 256 <= x ->
  load8 (outcome_mem (builder fuel base m)) x = load8 m x.
Proof.
  intros Hin Hx. unfold uint8_table_builders in Hin. simpl in Hin.
  repeat (destruct Hin as [<- | Hin]);
    [ unfold setup_low_nybble_to_low_nybble
    | unfold setup_low_nybble_to_high_nybble
    | unfold setup_high_nybble_to_high_nybble
    | unfold setup_high_nybble_to_low_nybble
    | unfold setup_nybble_add_no_carryin
    | unfold setup_nybble_add_with_carryin
    | unfold Carryout.setup_nybble_add_no_carryin
    | unfold Carryout.setup_nybble_add_with_carryin
    | unfold setup_nybble_compare_equal
    | contradiction ];
    match goal with
    | |- load8 (outcome_mem (for_loop _ _
                  (fun count m => Returned (store8 m (_ + count) (@?g count)))
                  _ _ _)) _ = _ =>
        apply (uint8_table_outside g base fuel m x Hx)
    end.
Qed.

Lemma uint8_builders_stay_in_table_witness :
  load8 (outcome_mem (setup_high_nybble_to_low_nybble 1000 0x20003000 zero_mem))
        0x20003100
  = load8 zero_mem 0x20003100.
Proof.
  apply (uint8_builders_stay_in_table 0 0 setup_high_nybble_to_low_nybble
           1000 0x20003000 zero_mem 0x20003100).
  - simpl. tauto.
  - lia.
Defined.

(** X4: once the counter of such a builder has passed through all 256
    values, further iterations change no byte of the store: the store after
    any [fuel >= 256] iterations reads the same as the store after 256. *)
Theorem uint8_builders_settle
        (a b : Z) (builder : nat -> Z -> mem -> outcome)
        (fuel : nat) (base : Z) (m : mem) (x : Z) :
  In builder (uint8_table_builders a b) ->
  (256 <= fuel)%nat ->
  load8 (outcome_mem (builder fuel base m)) x
  = load8 (outcome_mem (builder 256%nat base m)) x.
Proof.
  intros Hin Hfuel. unfold uint8_table_builders in Hin. simpl in Hin.
  repeat (destruct Hin as [<- | Hin]);
    [ unfold setup_low_nybble_to_low_nybble
    | unfold setup_low_nybble_to_high_nybble
    | unfold setup_high_nybble_to_high_nybble
    | unfold setup_high_nybble_to_low_nybble
    | unfold setup_nybble_add_no_carryin
    | unfold setup_nybble_add_with_carryin
    | unfold Carryout.setup_nybble_add_no_carryin
    | unfold Carryout.setup_nybble_add_with_carryin
    | unfold setup_nybble_compare_equal
    | contradiction ];
    match goal with
    | |- load8 (outcome_mem (for_loop _ _
                  (fun count m => Returned (store8 m (_ + count) (@?g count)))
                  _ _ _)) _ = _ =>
        apply (uint8_table_stable g base fuel m x Hfuel)
    end.
Qed.

Lemma uint8_builders_settle_witness :
  load8 (outcome_mem (setup_nybble_add_with_carryin 1000 0x20003000 zero_mem))
        0x20003042
  = load8 (outcome_mem (setup_nybble_add_with_carryin 256 0x20003000 zero_mem))
          0x20003042.
Proof.
  apply (uint8_builders_settle 0 0 setup_nybble_add_with_carryin
           1000 0x20003000 zero_mem 0x20003042).
  - simpl. tauto.
  - lia.
Defined.

(** ** The combination table, in arithmetic form *)

Lemma nybble_pair_arith (h l : Z) :
  0 <= h < 16 -> 0 <= l < 16 -> Z.lor (Z.shiftl h 4) l = 16 * h + l.
Proof.
  intros Hh Hl. apply Z.eqb_eq.
  apply (forall_below2 (fun h l => Z.lor (Z.shiftl h 4) l =? 16 * h + l) 16 16);
    [vm_compute; reflexivity | lia | lia].
Qed.

Lemma byte_nybbles (x : Z) :
  0 <= x < 256 -> 0 <= x / 16 < 16 /\ 0 <= x mod 16 < 16.
Proof.
  intros Hx. split.
  - split; [apply Z.div_pos; lia | apply Z.div_lt_upper_bound; lia].
  - apply Z.mod_pos_bound. lia.
Qed.

Section CombineStore.

Variable fuel : nat.
Hypothesis enough : (16 < fuel)%nat.
Variable base : Z.
Variable m : mem.

(** Row [h], column byte [l]: the entry joins [h] with the low nybble of
    [l]. *)
Lemma combine_entry (h l : Z) :
  0 <= h < 16 -> 0 <= l < 256 ->
  load8 (outcome_mem (setup_low_nybble_low_nybble_to_byte fuel base m))
        (base + (h * 256 + l))
  = 16 * h + l mod 16.
Proof.
  intros Hh Hl.
  destruct (setup_low_nybble_low_nybble_to_byte_spec base fuel enough m)
    as (m' & -> & Hent & _).
  cbn [outcome_mem].
  destruct (byte_nybbles l Hl) as [Hd Hm].
  replace (base + (h * 256 + l))
    with (base + (h * 256 + l / 16 * 16 + l mod 16))
    by (pose proof (Z.div_mod l 16 ltac:(lia)); lia).
  rewrite Hent by assumption.
  apply nybble_pair_arith; assumption.
Qed.

Lemma combine_outside (a : Z) :
  a < base \/ base + 4096 <= a ->
  load8 (outcome_mem (setup_low_nybble_low_nybble_to_byte fuel base m)) a
  = load8 m a.
Proof.
  intros Ha.
  destruct (setup_low_nybble_low_nybble_to_byte_spec base fuel enough m)
    as (m' & -> & _ & Hout).
  apply Hout. exact Ha.
Qed.

Lemma combine_returns :
  exists m', setup_low_nybble_low_nybble_to_byte fuel base m = Returned m'.
Proof.
  destruct (setup_low_nybble_low_nybble_to_byte_spec base fuel enough m)
    as (m' & H & _).
  exists m'. exact H.
Qed.

End CombineStore.

(** ** How the nybble tables fit together *)

(** X5: the four extraction tables split a byte [x] into its nybbles: the
    two low-position entries are the nybbles themselves (below 16), the two
    high-position entries are sixteen times them, and the kept-high and
    kept-low entries add up to [x] again. *)
Theorem nybble_extraction_splits_byte
        (fuel : nat) (bll blh bhh bhl : Z) (mll mlh mhh mhl : mem) (x : Z) :
  (256 <= fuel)%nat -> 0 <= x < 256 ->
  let ll := load8 (outcome_mem (setup_low_nybble_to_low_nybble fuel bll mll)) (bll + x) in
  let lh := load8 (outcome_mem (setup_low_nybble_to_high_nybble fuel blh mlh)) (blh + x) in
  let hh := load8 (outcome_mem (setup_high_nybble_to_high_nybble fuel bhh mhh)) (bhh + x) in
  let hl := load8 (outcome_mem (setup_high_nybble_to_low_nybble fuel bhl mhl)) (bhl + x) in
  hh + ll = x /\ lh = 16 * ll /\ hh = 16 * hl /\ 0 <= ll < 16 /\ 0 <= hl < 16.
Proof.
  intros Hfuel Hx ll lh hh hl. subst ll lh hh hl.
  rewrite low_nybble_to_low_nybble_entry, low_nybble_to_high_nybble_entry,
    high_nybble_to_high_nybble_entry, high_nybble_to_low_nybble_entry by assumption.
  destruct (byte_nybbles x Hx) as [Hd Hm].
  pose proof (Z.div_mod x 16 ltac:(lia)).
  repeat split; lia.
Qed.

Lemma nybble_extraction_splits_byte_witness :
  let ll := load8 (outcome_mem (setup_low_nybble_to_low_nybble 256 0x20003000 zero_mem))
                  (0x20003000 + 0xA7) in
  let lh := load8 (outcome_mem (setup_low_nybble_to_high_nybble 256 0x20003100 zero_mem))
                  (0x20003100 + 0xA7) in
  let hh := load8 (outcome_mem (setup_high_nybble_to_high_nybble 256 0x20003200 zero_mem))
                  (0x20003200 + 0xA7) in
  let hl := load8 (outcome_mem (setup_high_nybble_to_low_nybble 256 0x20003300 zero_mem))
                  (0x20003300 + 0xA7) in
  hh + ll = 0xA7 /\ lh = 16 * ll /\ hh = 16 * hl /\ 0 <= ll < 16 /\ 0 <= hl < 16.
Proof.
  apply (nybble_extraction_splits_byte 256 0x20003000 0x20003100 0x20003200
           0x20003300 zero_mem zero_mem zero_mem zero_mem 0xA7); lia.
Defined.

(** X6: indexing the combination table with the extracted high nybble of
    [a] as the row and the whole byte [b] as the column gives the byte made
    of [a]'s high nybble and [b]'s low nybble, [(a & 0xF0) | (b & 0x0F)];
    the upper nybble of [b] is ignored.  With [b = a] the byte comes back
    unchanged. *)
Theorem combine_joins_high_and_low_nybble
        (fuel : nat) (bhl bc : Z) (mhl mc : mem) (a b : Z) :
  (256 <= fuel)%nat -> 0 <= a < 256 -> 0 <= b < 256 ->
  let hl x := load8 (outcome_mem (setup_high_nybble_to_low_nybble fuel bhl mhl))
                    (bhl + x) in
  let comb h l :=
    load8 (outcome_mem (setup_low_nybble_low_nybble_to_byte fuel bc mc))
          (bc + (h * 256 + l)) in
  comb (hl a) b = Z.lor (Z.land a 0xF0) (Z.land b 0x0F)
  /\ comb (hl a) a = a.
Proof.
  intros Hfuel Ha Hb hl comb. subst hl comb. cbv beta.
  rewrite high_nybble_to_low_nybble_entry by assumption.
  destruct (byte_nybbles a Ha) as [Hd _].
  destruct (byte_nybbles b Hb) as [_ Hbm].
  rewrite !combine_entry by (assumption || lia).
  split.
  - replace (Z.land a 0xF0) with (16 * (a / 16)) by enum_byte a.
    replace (Z.land b 0x0F) with (b mod 16) by enum_byte b.
    rewrite <- (nybble_pair_arith (a / 16) (b mod 16)) by assumption.
    rewrite Z.shiftl_mul_pow2 by lia. f_equal. lia.
  - pose proof (Z.div_mod a 16 ltac:(lia)). lia.
Qed.

Lemma combine_joins_high_and_low_nybble_witness :
  let hl x := load8 (outcome_mem (setup_high_nybble_to_low_nybble 256 0x20003300 zero_mem))
                    (0x20003300 + x) in
  let comb h l :=
    load8 (outcome_mem (setup_low_nybble_low_nybble_to_byte 256 0x20010000 zero_mem))
          (0x20010000 + (h * 256 + l)) in
  comb (hl 0xA7) 0x3C = Z.lor (Z.land 0xA7 0xF0) (Z.land 0x3C 0x0F)
  /\ comb (hl 0xA7) 0xA7 = 0xA7.
Proof.
  apply (combine_joins_high_and_low_nybble 256 0x20003300 0x20010000
           zero_mem zero_mem 0xA7 0x3C); lia.
Defined.

(** ** The addition tables *)

Section AddTables.

Variable fuel : nat.
Hypothesis round : (256 <= fuel)%nat.
Variables bs0 bs1 bc0 bc1 : Z.
Variables ms0 ms1 mc0 mc1 : mem.

(** Choosing the sum or carry-out table by the carry bit [c]. *)
Lemma nybble_sum_select (c i : Z) :
  0 <= c <= 1 -> 0 <= i < 256 ->
  (if c =? 0
   then load8 (outcome_mem (setup_nybble_add_no_carryin fuel bs0 ms0)) (bs0 + i)
   else load8 (outcome_mem (setup_nybble_add_with_carryin fuel bs1 ms1)) (bs1 + i))
  = (i / 16 + i mod 16 + c) mod 16.
Proof.
  intros Hc Hi. assert (c = 0 \/ c = 1) as [-> | ->] by lia; cbn [Z.eqb].
  - rewrite nybble_add_no_carryin_entry by assumption. f_equal. lia.
  - rewrite nybble_add_with_carryin_entry by assumption. reflexivity.
Qed.

Lemma nybble_carry_select (c i : Z) :
  0 <= c <= 1 -> 0 <= i < 256 ->
  (if c =? 0
   then load8 (outcome_mem (Carryout.setup_nybble_add_no_carryin fuel bc0 mc0)) (bc0 + i)
   else load8 (outcome_mem (Carryout.setup_nybble_add_with_carryin fuel bc1 mc1)) (bc1 + i))
  = (i / 16 + i mod 16 + c) / 16.
Proof.
  intros Hc Hi. assert (c = 0 \/ c = 1) as [-> | ->] by lia; cbn [Z.eqb].
  - rewrite nybble_carryout_no_carryin_entry by assumption. f_equal. lia.
  - rewrite nybble_carryout_with_carryin_entry by assumption. reflexivity.
Qed.

End AddTables.

Lemma nybble_adder_ranges (c i : Z) :
  0 <= c <= 1 -> 0 <= i < 256 ->
  0 <= (i / 16 + i mod 16 + c) mod 16 < 16
  /\ 0 <= (i / 16 + i mod 16 + c) / 16 <= 1.
Proof.
  intros Hc Hi. destruct (byte_nybbles i Hi) as [Hd Hm]. split.
  - apply Z.mod_pos_bound. lia.
  - split; [apply Z.div_pos; lia|].
    assert ((i / 16 + i mod 16 + c) / 16 < 2)
      by (apply Z.div_lt_upper_bound; lia).
    lia.
Qed.

(** X7: for each carry-in, the sum table and the carry-out table together
    hold the full five-bit sum of the two nybbles of the index: entry [i] of
    the sum table plus sixteen times entry [i] of the carry-out table is
    [hi + lo + carry_in].  Sum entries are below 16 (bits 7:4 clear) and
    carry-out entries are 0 or 1. *)
Theorem nybble_sum_and_carry_make_the_sum
        (fuel : nat) (bs0 bs1 bc0 bc1 : Z) (ms0 ms1 mc0 mc1 : mem) (i : Z) :
  (256 <= fuel)%nat -> 0 <= i < 256 ->
  let sum0 := load8 (outcome_mem (setup_nybble_add_no_carryin fuel bs0 ms0)) (bs0 + i) in
  let sum1 := load8 (outcome_mem (setup_nybble_add_with_carryin fuel bs1 ms1)) (bs1 + i) in
  let carry0 :=
    load8 (outcome_mem (Carryout.setup_nybble_add_no_carryin fuel bc0 mc0)) (bc0 + i) in
  let carry1 :=
    load8 (outcome_mem (Carryout.setup_nybble_add_with_carryin fuel bc1 mc1)) (bc1 + i) in
  sum0 + 16 * carry0 = i / 16 + i mod 16
  /\ sum1 + 16 * carry1 = i / 16 + i mod 16 + 1
  /\ 0 <= sum0 < 16 /\ 0 <= sum1 < 16
  /\ 0 <= carry0 <= 1 /\ 0 <= carry1 <= 1.
Proof.
  intros Hfuel Hi sum0 sum1 carry0 carry1. subst sum0 sum1 carry0 carry1.
  rewrite nybble_add_no_carryin_entry, nybble_add_with_carryin_entry,
    nybble_carryout_no_carryin_entry, nybble_carryout_with_carryin_entry
    by assumption.
  pose proof (nybble_adder_ranges 0 i ltac:(lia) Hi) as [R0 Q0].
  pose proof (nybble_adder_ranges 1 i ltac:(lia) Hi) as [R1 Q1].
  rewrite Z.add_0_r in R0, Q0.
  pose proof (Z.div_mod (i / 16 + i mod 16) 16 ltac:(lia)).
  pose proof (Z.div_mod (i / 16 + i mod 16 + 1) 16 ltac:(lia)).
  repeat split; lia.
Qed.

Lemma nybble_sum_and_carry_make_the_sum_witness :
  let sum0 := load8 (outcome_mem (setup_nybble_add_no_carryin 256 0x20004000 zero_mem))
                    (0x20004000 + 0x9F) in
  let sum1 := load8 (outcome_mem (setup_nybble_add_with_carryin 256 0x20004100 zero_mem))
                    (0x20004100 + 0x9F) in
  let carry0 :=
    load8 (outcome_mem (Carryout.setup_nybble_add_no_carryin 256 0x20004200 zero_mem))
          (0x20004200 + 0x9F) in
  let carry1 :=
    load8 (outcome_mem (Carryout.setup_nybble_add_with_carryin 256 0x20004300 zero_mem))
          (0x20004300 + 0x9F) in
  sum0 + 16 * carry0 = 0x9F / 16 + 0x9F mod 16
  /\ sum1 + 16 * carry1 = 0x9F / 16 + 0x9F mod 16 + 1
  /\ 0 <= sum0 < 16 /\ 0 <= sum1 < 16
  /\ 0 <= carry0 <= 1 /\ 0 <= carry1 <= 1.
Proof.
  apply (nybble_sum_and_carry_make_the_sum 256 0x20004000 0x20004100 0x20004200
           0x20004300 zero_mem zero_mem zero_mem zero_mem 0x9F); lia.
Defined.

(** X8: the four addition tables and the comparison table do not care which
    nybble of the index is which: the entry for [(hi, lo)] equals the entry
    for [(lo, hi)]. *)
Theorem nybble_pair_tables_are_symmetric
        (a b : Z) (builder : nat -> Z -> mem -> outcome)
        (fuel : nat) (base : Z) (m : mem) (hi lo : Z) :
  In builder [ setup_nybble_add_no_carryin;
               setup_nybble_add_with_carryin;
               Carryout.setup_nybble_add_no_carryin;
               Carryout.setup_nybble_add_with_carryin;
               fun fuel base m => setup_nybble_compare_equal fuel base a b m ] ->
  (256 <= fuel)%nat -> 0 <= hi < 16 -> 0 <= lo < 16 ->
  load8 (outcome_mem (builder fuel base m)) (base + (hi * 16 + lo))
  = load8 (outcome_mem (builder fuel base m)) (base + (lo * 16 + hi)).
Proof.
  intros Hin Hfuel Hh Hl.
  destruct (nybble_index_split hi lo Hh Hl) as [D1 M1].
  destruct (nybble_index_split lo hi Hl Hh) as [D2 M2].
  simpl in Hin. repeat (destruct Hin as [<- | Hin]); [| | | | | contradiction].
  - rewrite !nybble_add_no_carryin_entry by (assumption || lia).
    rewrite D1, M1, D2, M2. f_equal. lia.
  - rewrite !nybble_add_with_carryin_entry by (assumption || lia).
    rewrite D1, M1, D2, M2. f_equal. lia.
  - rewrite !nybble_carryout_no_carryin_entry by (assumption || lia).
    rewrite D1, M1, D2, M2. f_equal. lia.
  - rewrite !nybble_carryout_with_carryin_entry by (assumption || lia).
    rewrite D1, M1, D2, M2. f_equal. lia.
  - rewrite !nybble_compare_equal_entry by (assumption || lia).
    rewrite D1, M1, D2, M2. rewrite (Z.eqb_sym lo hi). reflexivity.
Qed.

Lemma nybble_pair_tables_are_symmetric_witness :
  load8 (outcome_mem (Carryout.setup_nybble_add_with_carryin 256 0x20004300 zero_mem))
        (0x20004300 + (0x9 * 16 + 0x6))
  = load8 (outcome_mem (Carryout.setup_nybble_add_with_carryin 256 0x20004300 zero_mem))
          (0x20004300 + (0x6 * 16 + 0x9)).
Proof.
  apply (nybble_pair_tables_are_symmetric 0 0
           Carryout.setup_nybble_add_with_carryin 256 0x20004300 zero_mem 0x9 0x6).
  - simpl. tauto.
  - lia.
  - lia.
  - lia.
Defined.

(** X9: the tables add two bytes.  Extract the low nybbles of [a] and [b]
    and join them with the combination table; look the pair up in the sum
    and carry-out tables for the incoming carry; do the same with the high
    nybbles, choosing the table variant by the carry just found; join the
    two sum nybbles with the combination table.  The byte obtained is
    [(a + b + carry_in) mod 256] and the last carry-out is the ninth bit of
    the sum. *)
Theorem nybble_tables_add_bytes
        (fuel : nat)
        (bll bhl bcomb bs0 bs1 bc0 bc1 : Z)
        (mll mhl mcomb ms0 ms1 mc0 mc1 : mem)
        (a b carry_in : Z) :
  (256 <= fuel)%nat -> 0 <= a < 256 -> 0 <= b < 256 -> 0 <= carry_in <= 1 ->
  let ll x :=
    load8 (outcome_mem (setup_low_nybble_to_low_nybble fuel bll mll)) (bll + x) in
  let hl x :=
    load8 (outcome_mem (setup_high_nybble_to_low_nybble fuel bhl mhl)) (bhl + x) in
  let comb h l :=
    load8 (outcome_mem (setup_low_nybble_low_nybble_to_byte fuel bcomb mcomb))
          (bcomb + (h * 256 + l)) in
  let sum c i :=
    if c =? 0
    then load8 (outcome_mem (setup_nybble_add_no_carryin fuel bs0 ms0)) (bs0 + i)
    else load8 (outcome_mem (setup_nybble_add_with_carryin fuel bs1 ms1)) (bs1 + i) in
  let carry c i :=
    if c =? 0
    then load8 (outcome_mem (Carryout.setup_nybble_add_no_carryin fuel bc0 mc0)) (bc0 + i)
    else load8 (outcome_mem (Carryout.setup_nybble_add_with_carryin fuel bc1 mc1)) (bc1 + i) in
  let lo_pair := comb (ll a) (ll b) in
  let hi_pair := comb (hl a) (hl b) in
  let c := carry carry_in lo_pair in
  comb (sum c hi_pair) (sum carry_in lo_pair) = (a + b + carry_in) mod 256
  /\ carry c hi_pair = (a + b + carry_in) / 256.
Proof.
  intros Hfuel Ha Hb Hcin. cbv zeta beta.
  assert (Hfuel16 : (16 < fuel)%nat) by lia.
  destruct (byte_nybbles a Ha) as [Had Ham].
  destruct (byte_nybbles b Hb) as [Hbd Hbm].
  rewrite !low_nybble_to_low_nybble_entry by assumption.
  rewrite !high_nybble_to_low_nybble_entry by assumption.
  rewrite !(combine_entry fuel Hfuel16 bcomb mcomb (a mod 16) (b mod 16)) by lia.
  rewrite !(combine_entry fuel Hfuel16 bcomb mcomb (a / 16) (b / 16)) by lia.
  set (L := 16 * (a mod 16) + (b mod 16) mod 16).
  set (H := 16 * (a / 16) + (b / 16) mod 16).
  assert (HL : 0 <= L < 256)
    by (subst L; pose proof (Z.mod_pos_bound (b mod 16) 16 ltac:(lia)); lia).
  assert (HH : 0 <= H < 256)
    by (subst H; pose proof (Z.mod_pos_bound (b / 16) 16 ltac:(lia)); lia).
  rewrite !(nybble_carry_select fuel Hfuel bc0 bc1 mc0 mc1 carry_in L Hcin HL).
  destruct (nybble_adder_ranges carry_in L Hcin HL) as [RL QL].
  set (c := (L / 16 + L mod 16 + carry_in) / 16) in *.
  rewrite (nybble_sum_select fuel Hfuel bs0 bs1 ms0 ms1 c H QL HH).
  rewrite (nybble_sum_select fuel Hfuel bs0 bs1 ms0 ms1 carry_in L Hcin HL).
  rewrite (nybble_carry_select fuel Hfuel bc0 bc1 mc0 mc1 c H QL HH).
  destruct (nybble_adder_ranges c H QL HH) as [RH QH].
  rewrite combine_entry by (assumption || lia).
  set (s_hi := (H / 16 + H mod 16 + c) mod 16) in *.
  set (c_out := (H / 16 + H mod 16 + c) / 16) in *.
  set (s_lo := (L / 16 + L mod 16 + carry_in) mod 16) in *.
  rewrite (Z.mod_small s_lo 16) by lia.
  assert (EL : L / 16 = a mod 16 /\ L mod 16 = b mod 16).
  { subst L. rewrite (Z.mod_small (b mod 16) 16) by lia.
    replace (16 * (a mod 16) + b mod 16) with (a mod 16 * 16 + b mod 16) by lia.
    apply nybble_index_split; assumption. }
  assert (EH : H / 16 = a / 16 /\ H mod 16 = b / 16).
  { subst H. rewrite (Z.mod_small (b / 16) 16) by lia.
    replace (16 * (a / 16) + b / 16) with (a / 16 * 16 + b / 16) by lia.
    apply nybble_index_split; assumption. }
  destruct EL as [EL1 EL2]. destruct EH as [EH1 EH2].
  pose proof (Z.div_mod (L / 16 + L mod 16 + carry_in) 16 ltac:(lia)) as Dlo.
  pose proof (Z.div_mod (H / 16 + H mod 16 + c) 16 ltac:(lia)) as Dhi.
  fold c s_lo in Dlo. fold c_out s_hi in Dhi.
  rewrite EL1, EL2 in Dlo. rewrite EH1, EH2 in Dhi.
  pose proof (Z.div_mod a 16 ltac:(lia)) as Da.
  pose proof (Z.div_mod b 16 ltac:(lia)) as Db.
  assert (Etotal : a + b + carry_in = 256 * c_out + (16 * s_hi + s_lo)) by lia.
  split.
  - apply (Z.mod_unique _ 256 c_out); [left; lia | exact Etotal].
  - apply (Z.div_unique _ 256 c_out (16 * s_hi + s_lo)); [left; lia | exact Etotal].
Qed.

Lemma nybble_tables_add_bytes_witness :
  let ll x :=
    load8 (outcome_mem (setup_low_nybble_to_low_nybble 256 0x20003000 zero_mem))
          (0x20003000 + x) in
  let hl x :=
    load8 (outcome_mem (setup_high_nybble_to_low_nybble 256 0x20003300 zero_mem))
          (0x20003300 + x) in
  let comb h l :=
    load8 (outcome_mem (setup_low_nybble_low_nybble_to_byte 256 0x20010000 zero_mem))
          (0x20010000 + (h * 256 + l)) in
  let sum c i :=
    if c =? 0
    then load8 (outcome_mem (setup_nybble_add_no_carryin 256 0x20004000 zero_mem))
               (0x20004000 + i)
    else load8 (outcome_mem (setup_nybble_add_with_carryin 256 0x20004100 zero_mem))
               (0x20004100 + i) in
  let carry c i :=
    if c =? 0
    then load8 (outcome_mem (Carryout.setup_nybble_add_no_carryin 256 0x20004200 zero_mem))
               (0x20004200 + i)
    else load8 (outcome_mem (Carryout.setup_nybble_add_with_carryin 256 0x20004300 zero_mem))
               (0x20004300 + i) in
  let lo_pair := comb (ll 0xFF) (ll 0x01) in
  let hi_pair := comb (hl 0xFF) (hl 0x01) in
  let c := carry 0 lo_pair in
  comb (sum c hi_pair) (sum 0 lo_pair) = (0xFF + 0x01 + 0) mod 256
  /\ carry c hi_pair = (0xFF + 0x01 + 0) / 256.
Proof.
  apply (nybble_tables_add_bytes 256
           0x20003000 0x20003300 0x20010000 0x20004000 0x20004100 0x20004200 0x20004300
           zero_mem zero_mem zero_mem zero_mem zero_mem zero_mem zero_mem
           0xFF 0x01 0); lia.
Defined.

(** X10: the combination table is a function of its base only.  Building it
    again in place changes no byte of the store, and two builds at the same
    base from different stores agree on all 4096 entries. *)
Theorem combine_builder_is_idempotent
        (fuel : nat) (base : Z) (m m2 : mem) (x k : Z) :
  (16 < fuel)%nat -> 0 <= k < 4096 ->
  let built := outcome_mem (setup_low_nybble_low_nybble_to_byte fuel base m) in
  load8 (outcome_mem (setup_low_nybble_low_nybble_to_byte fuel base built)) x
  = load8 built x
  /\ load8 (outcome_mem (setup_low_nybble_low_nybble_to_byte fuel base m2)) (base + k)
     = load8 built (base + k).
Proof.
  intros Hfuel Hk built. subst built.
  assert (Hentry : forall m0 j, 0 <= j < 4096 ->
            load8 (outcome_mem (setup_low_nybble_low_nybble_to_byte fuel base m0))
                  (base + j)
            = 16 * (j / 256) + (j mod 256) mod 16).
  { intros m0 j Hj.
    pose proof (Z.div_mod j 256 ltac:(lia)) as Hdm.
    pose proof (Z.mod_pos_bound j 256 ltac:(lia)).
    assert (0 <= j / 256 < 16)
      by (split; [apply Z.div_pos; lia | apply Z.div_lt_upper_bound; lia]).
    replace (base + j) with (base + (j / 256 * 256 + j mod 256)) by lia.
    apply combine_entry; assumption. }
  split.
  - destruct (Z_lt_dec x base) as [Hlo|Hlo];
      [rewrite combine_outside by (assumption || lia); reflexivity|].
    destruct (Z_le_dec (base + 4096) x) as [Hhi|Hhi];
      [rewrite combine_outside by (assumption || lia); reflexivity|].
    replace x with (base + (x - base)) by lia.
    rewrite !Hentry by lia. reflexivity.
  - rewrite !Hentry by lia. reflexivity.
Qed.

Lemma combine_builder_is_idempotent_witness :
  let built :=
    outcome_mem (setup_low_nybble_low_nybble_to_byte 17 0x20010000 zero_mem) in
  load8 (outcome_mem (setup_low_nybble_low_nybble_to_byte 17 0x20010000 built))
        0x20010A35
  = load8 built 0x20010A35
  /\ load8 (outcome_mem
              (setup_low_nybble_low_nybble_to_byte 17 0x20010000 (fun _ => 0xEE)))
           (0x20010000 + 0xA35)
     = load8 built (0x20010000 + 0xA35).
Proof.
  apply (combine_builder_is_idempotent 17 0x20010000 zero_mem (fun _ => 0xEE)
           0x20010A35 0xA35); lia.
Defined.

(** * Further properties of the chain builder *)

Lemma load8_store16_in m a v x :
  a <= x < a + 2 ->
  load8 (store16 m a v) x = uint8 (Z.shiftr v (8 * (x - a))).
Proof.
  intros Hx. unfold store16.
  assert (x = a \/ x = a + 1) as [-> | ->] by lia.
  - rewrite load8_store8_other by lia. rewrite load8_store8_same.
    replace (8 * (a - a)) with 0 by lia. reflexivity.
  - rewrite load8_store8_same. replace (8 * (a + 1 - a)) with 8 by lia.
    reflexivity.
Qed.

Lemma load8_store32_in m a v x :
  a <= x < a + 4 ->
  load8 (store32 m a v) x = uint8 (Z.shiftr v (8 * (x - a))).
Proof.
  intros Hx. unfold store32.
  destruct (Z_lt_dec x (a + 2)) as [Hlo|Hhi].
  - rewrite load8_store16_other by lia. apply load8_store16_in. lia.
  - rewrite load8_store16_in by lia.
    rewrite Z.shiftr_shiftr by lia. do 2 f_equal. lia.
Qed.

(** Reading one byte through the stores of the builder. *)
Ltac byte_simpl :=
  repeat first
    [ rewrite load8_store32_other by lia
    | rewrite load8_store16_other by lia
    | rewrite load8_store32_in by lia
    | rewrite load8_store16_in by lia ].

Lemma add8_builder_footprint_aux
      (scratch descs opa opb result : Z) (m : mem) (x : Z) :
  x < descs \/ descs + 3 * sizeof_DmacDescriptor <= x
  \/ addr_SRCADDR descs 2 <= x < addr_SRCADDR descs 2 + sizeof_SRCADDR ->
  load8 (build_add8_using_nybbles scratch descs opa opb result m) x = load8 m x.
Proof. intros Hx. unfold_layout. byte_simpl. reflexivity. Qed.

Lemma add8_builder_depends_on_operand_bytes_aux
      (scratch descs opa opb result : Z) (m1 m2 : mem) (x : Z) :
  opa < descs \/ descs + 3 * sizeof_DmacDescriptor <= opa ->
  opb < descs \/ descs + 3 * sizeof_DmacDescriptor <= opb ->
  load8 m1 opa = load8 m2 opa ->
  load8 m1 opb = load8 m2 opb ->
  descs <= x < addr_SRCADDR descs 2
  \/ addr_DSTADDR descs 2 <= x < descs + 3 * sizeof_DmacDescriptor ->
  load8 (build_add8_using_nybbles scratch descs opa opb result m1) x
  = load8 (build_add8_using_nybbles scratch descs opa opb result m2) x.
Proof.
  intros Ha Hb Ea Eb Hx. unfold_layout.
  assert (Hfield :
            descs <= x < descs + 2 \/ descs + 2 <= x < descs + 4
            \/ descs + 4 <= x < descs + 8 \/ descs + 8 <= x < descs + 12
            \/ descs + 12 <= x < descs + 16
            \/ descs + 16 <= x < descs + 18 \/ descs + 18 <= x < descs + 20
            \/ descs + 20 <= x < descs + 24 \/ descs + 24 <= x < descs + 28
            \/ descs + 28 <= x < descs + 32
            \/ descs + 32 <= x < descs + 34 \/ descs + 34 <= x < descs + 36
            \/ descs + 40 <= x < descs + 44 \/ descs + 44 <= x < descs + 48)
    by lia.
  clear Hx.
  repeat (destruct Hfield as [Hx | Hfield]);
    try rename Hfield into Hx;
    byte_simpl; rewrite ?Ea, ?Eb; reflexivity.
Qed.

(** X11: the call stores only into the fields it assigns.  Every byte
    outside the first three descriptors keeps its value, so nothing is
    written at the operands, at the result location or in the scratch array;
    and the four bytes of [descs[2].SRCADDR] keep their value too, so the
    third descriptor's source address is whatever the store held before. *)
Theorem add8_builder_footprint
        (scratch descs opa opb result : Z) (m : mem) (x : Z) :
  x < descs \/ descs + 3 * sizeof_DmacDescriptor <= x
  \/ addr_SRCADDR descs 2 <= x < addr_SRCADDR descs 2 + sizeof_SRCADDR ->
  load8 (build_add8_using_nybbles scratch descs opa opb result m) x = load8 m x.
Proof. apply add8_builder_footprint_aux. Qed.

Lemma add8_builder_footprint_witness :
  load8 (build_add8_using_nybbles Board.scratch Board.descs Board.opa Board.opb
           Board.result (Board.initial 0x3F 0x01)) Board.result
  = load8 (Board.initial 0x3F 0x01) Board.result.
Proof.
  apply (add8_builder_footprint Board.scratch Board.descs Board.opa Board.opb
           Board.result (Board.initial 0x3F 0x01) Board.result).
  unfold Board.descs, Board.result, sizeof_DmacDescriptor. lia.
Defined.

(** X12: each of the three descriptors is given the control word 1 (valid,
    byte beats, no address increment, no block action, no event), and the
    transfer counts are 1, 1 and 2. *)
Theorem add8_builder_control_words
        (scratch descs opa opb result : Z) (m : mem) :
  let m' := build_add8_using_nybbles scratch descs opa opb result m in
  (load16 m' (addr_BTCTRL descs 0) = 1
   /\ load16 m' (addr_BTCTRL descs 1) = 1
   /\ load16 m' (addr_BTCTRL descs 2) = 1)
  /\ (load16 m' (addr_BTCNT descs 0) = 1
      /\ load16 m' (addr_BTCNT descs 1) = 1
      /\ load16 m' (addr_BTCNT descs 2) = 2).
Proof.
  intros m'. subst m'.
  repeat split; unfold_layout; mem_simpl; reflexivity.
Qed.

(** X13: the descriptors depend on the store only through the two operand
    bytes, read when the call is made.  Two calls with the same addresses,
    from stores that hold the same bytes at [opa] and [opb], leave the same
    value in every byte they assign. *)
Theorem add8_builder_depends_on_operand_bytes
        (scratch descs opa opb result : Z) (m1 m2 : mem) (x : Z) :
  opa < descs \/ descs + 3 * sizeof_DmacDescriptor <= opa ->
  opb < descs \/ descs + 3 * sizeof_DmacDescriptor <= opb ->
  load8 m1 opa = load8 m2 opa ->
  load8 m1 opb = load8 m2 opb ->
  descs <= x < addr_SRCADDR descs 2
  \/ addr_DSTADDR descs 2 <= x < descs + 3 * sizeof_DmacDescriptor ->
  load8 (build_add8_using_nybbles scratch descs opa opb result m1) x
  = load8 (build_add8_using_nybbles scratch descs opa opb result m2) x.
Proof. apply add8_builder_depends_on_operand_bytes_aux. Qed.

Lemma add8_builder_depends_on_operand_bytes_witness :
  load8 (build_add8_using_nybbles Board.scratch Board.descs Board.opa Board.opb
           Board.result (Board.initial 0x3F 0x01)) (addr_SRCADDR Board.descs 0)
  = load8 (build_add8_using_nybbles Board.scratch Board.descs Board.opa Board.opb
             Board.result (store8 (Board.initial 0x3F 0x01) Board.result 0x99))
          (addr_SRCADDR Board.descs 0).
Proof.
  apply (add8_builder_depends_on_operand_bytes Board.scratch Board.descs
           Board.opa Board.opb Board.result
           (Board.initial 0x3F 0x01)
           (store8 (Board.initial 0x3F 0x01) Board.result 0x99));
    try reflexivity;
    unfold Board.descs, Board.opa, Board.opb, addr_SRCADDR, addr_DSTADDR,
      desc_addr, offsetof_SRCADDR, offsetof_DSTADDR, sizeof_DmacDescriptor; lia.
Defined.

(** X14: building the chain a second time in the same place changes no byte
    of the store, when the operands lie outside the three descriptors. *)
Theorem add8_builder_is_idempotent
        (scratch descs opa opb result : Z) (m : mem) (x : Z) :
  opa < descs \/ descs + 3 * sizeof_DmacDescriptor <= opa ->
  opb < descs \/ descs + 3 * sizeof_DmacDescriptor <= opb ->
  let built := build_add8_using_nybbles scratch descs opa opb result m in
  load8 (build_add8_using_nybbles scratch descs opa opb result built) x
  = load8 built x.
Proof.
  intros Ha Hb built.
  assert (Hcases :
            (x < descs \/ descs + 3 * sizeof_DmacDescriptor <= x
             \/ addr_SRCADDR descs 2 <= x < addr_SRCADDR descs 2 + sizeof_SRCADDR)
            \/ (descs <= x < addr_SRCADDR descs 2
                \/ addr_DSTADDR descs 2 <= x < descs + 3 * sizeof_DmacDescriptor))
    by (unfold addr_SRCADDR, addr_DSTADDR, desc_addr, offsetof_SRCADDR,
          offsetof_DSTADDR, sizeof_DmacDescriptor, sizeof_SRCADDR; lia).
  destruct Hcases as [Hout | Hin].
  - apply add8_builder_footprint_aux. exact Hout.
  - subst built.
    apply add8_builder_depends_on_operand_bytes_aux; try assumption.
    + apply add8_builder_footprint_aux. tauto.
    + apply add8_builder_footprint_aux. tauto.
Qed.

Lemma add8_builder_is_idempotent_witness :
  let built := build_add8_using_nybbles Board.scratch Board.descs Board.opa
                 Board.opb Board.result (Board.initial 0x3F 0x01) in
  load8 (build_add8_using_nybbles Board.scratch Board.descs Board.opa Board.opb
           Board.result built) (addr_DSTADDR Board.descs 1)
  = load8 built (addr_DSTADDR Board.descs 1).
Proof.
  apply (add8_builder_is_idempotent Board.scratch Board.descs Board.opa
           Board.opb Board.result (Board.initial 0x3F 0x01)
           (addr_DSTADDR Board.descs 1));
    unfold Board.descs, Board.opa, Board.opb, sizeof_DmacDescriptor; lia.
Defined.

(** * Properties of [firmware/main.c] *)

Lemma reg_read_write_same h r v :
  reg_read (reg_write h r v) r = v mod 2 ^ register_bits r.
Proof.
  unfold reg_read, reg_write. cbn [contents].
  assert (E : register_eqb r r = true) by (destruct r; cbn; auto using Z.eqb_refl).
  rewrite E. apply Z.mod_mod. destruct r; cbn; lia.
Qed.

Lemma reg_read_write_other h r v s :
  register_eqb s r = false -> reg_read (reg_write h r v) s = reg_read h s.
Proof.
  intros E. unfold reg_read, reg_write. cbn [contents]. rewrite E. reflexivity.
Qed.

Lemma reg_read_range h r : 0 <= reg_read h r < 2 ^ register_bits r.
Proof. unfold reg_read. apply Z.mod_pos_bound. destruct r; cbn; lia. Qed.

Ltac reg_simpl :=
  repeat first
    [ rewrite reg_read_write_same
    | rewrite reg_read_write_other
        by first [ reflexivity | cbn; apply Z.eqb_neq; assumption ] ].

(** Bits of a register after its value was taken modulo the width. *)
Lemma testbit_mod_width (v w n : Z) :
  0 <= w -> 0 <= n ->
  Z.testbit (v mod 2 ^ w) n = (n <? w) && Z.testbit v n.
Proof.
  intros Hw Hn. destruct (Z.ltb_spec n w).
  - rewrite Z.mod_pow2_bits_low by lia. reflexivity.
  - rewrite Z.mod_pow2_bits_high by lia. reflexivity.
Qed.

Lemma reg_read_high_bits h r n :
  register_bits r <= n -> Z.testbit (reg_read h r) n = false.
Proof.
  intros Hn. unfold reg_read. apply Z.mod_pow2_bits_high.
  destruct r; cbn in *; lia.
Qed.

Lemma init_hardware_OSC8M_bits h n :
  0 <= n ->
  Z.testbit (reg_read (init_hardware h) SYSCTRL_OSC8M) n
  = Z.testbit (reg_read h SYSCTRL_OSC8M) n && negb ((n =? 8) || (n =? 9)).
Proof.
  intros Hn. unfold init_hardware. cbv zeta. reg_simpl.
  cbn [register_bits].
  rewrite testbit_mod_width by lia.
  rewrite Z.land_spec.
  destruct (Z.ltb_spec n 32) as [Hlt|Hge].
  - cbn [andb]. f_equal.
    apply Bool.eqb_prop.
    apply (forall_below
             (fun n => Bool.eqb (Z.testbit (uint32 (Z.lnot (Z.shiftl 3 8))) n)
                                (negb ((n =? 8) || (n =? 9)))) 32);
      [vm_compute; reflexivity | lia].
  - cbn [andb]. rewrite (reg_read_high_bits h SYSCTRL_OSC8M n) by (cbn; lia).
    reflexivity.
Qed.

Lemma init_hardware_APBCMASK_bits h n :
  0 <= n < 32 ->
  Z.testbit (reg_read (init_hardware h) PM_APBCMASK) n
  = Z.testbit (reg_read h PM_APBCMASK) n || (n =? 2).
Proof.
  intros Hn. unfold init_hardware. cbv zeta. reg_simpl.
  cbn [register_bits].
  rewrite testbit_mod_width by lia.
  destruct (Z.ltb_spec n 32) as [_|]; [|lia]. cbn [andb].
  rewrite Z.lor_spec. f_equal.
  apply Bool.eqb_prop.
  apply (forall_below
           (fun n => Bool.eqb (Z.testbit (Z.shiftl 1 2) n) (n =? 2)) 32);
    [vm_compute; reflexivity | lia].
Qed.

Lemma init_hardware_PMUX5 h :
  reg_read (init_hardware h) (PORT_PMUX 5)
  = 16 * (reg_read h (PORT_PMUX 5) / 16) + 2.
Proof.
  unfold init_hardware. cbv zeta.
  change (Z.shiftr 10 1) with 5. reg_simpl. cbn [register_bits].
  pose proof (reg_read_range h (PORT_PMUX 5)) as Hx. cbn [register_bits] in Hx.
  set (x := reg_read h (PORT_PMUX 5)) in *.
  change (2 ^ 8) with 256 in *.
  enum_byte x.
Qed.

(** X15: [init_hardware] clears bits 8 and 9 of [SYSCTRL->OSC8M] (the
    prescaler field) and writes every other bit back as it read it. *)
Theorem init_hardware_clears_osc8m_prescaler (h : hardware) (n : Z) :
  0 <= n < 32 ->
  Z.testbit (reg_read (init_hardware h) SYSCTRL_OSC8M) n
  = Z.testbit (reg_read h SYSCTRL_OSC8M) n && negb ((n =? 8) || (n =? 9)).
Proof. intros Hn. apply init_hardware_OSC8M_bits. lia. Qed.

Lemma init_hardware_clears_osc8m_prescaler_witness :
  Z.testbit (reg_read (init_hardware (mkHardware (fun _ => 0xFFFFFFFF) []))
                      SYSCTRL_OSC8M) 9
  = Z.testbit (reg_read (mkHardware (fun _ => 0xFFFFFFFF) []) SYSCTRL_OSC8M) 9
    && negb ((9 =? 8) || (9 =? 9)).
Proof.
  apply (init_hardware_clears_osc8m_prescaler (mkHardware (fun _ => 0xFFFFFFFF) []) 9).
  lia.
Defined.

(** X16: in the pin multiplexer, [init_hardware] sets the low nybble of
    [PMUX[5]] to 2 (function C for the even pin PA10) and keeps its high
    nybble (the odd pin PA11); it sets [PINCFG[10]] to 1; every other
    [PMUX] and [PINCFG] register reads as before. *)
Theorem init_hardware_selects_pa10_function (h : hardware) (i j : Z) :
  i <> 5 -> j <> 10 ->
  reg_read (init_hardware h) (PORT_PMUX 5)
  = 16 * (reg_read h (PORT_PMUX 5) / 16) + 2
  /\ reg_read (init_hardware h) (PORT_PINCFG 10) = 1
  /\ reg_read (init_hardware h) (PORT_PMUX i) = reg_read h (PORT_PMUX i)
  /\ reg_read (init_hardware h) (PORT_PINCFG j) = reg_read h (PORT_PINCFG j).
Proof.
  intros Hi Hj. split; [apply init_hardware_PMUX5|].
  unfold init_hardware. cbv zeta. change (Z.shiftr 10 1) with 5.
  repeat split; reg_simpl; reflexivity.
Qed.

Lemma init_hardware_selects_pa10_function_witness :
  reg_read (init_hardware (mkHardware (fun _ => 0x61) [])) (PORT_PMUX 5)
  = 16 * (reg_read (mkHardware (fun _ => 0x61) []) (PORT_PMUX 5) / 16) + 2
  /\ reg_read (init_hardware (mkHardware (fun _ => 0x61) [])) (PORT_PINCFG 10) = 1
  /\ reg_read (init_hardware (mkHardware (fun _ => 0x61) [])) (PORT_PMUX 4)
     = reg_read (mkHardware (fun _ => 0x61) []) (PORT_PMUX 4)
  /\ reg_read (init_hardware (mkHardware (fun _ => 0x61) [])) (PORT_PINCFG 11)
     = reg_read (mkHardware (fun _ => 0x61) []) (PORT_PINCFG 11).
Proof.
  apply (init_hardware_selects_pa10_function (mkHardware (fun _ => 0x61) []) 4 11); lia.
Defined.

(** X17: [init_hardware] sets bit 2 of [PM->APBCMASK] (the SERCOM0 bus
    clock) and writes every other bit back as it read it. *)
Theorem init_hardware_enables_sercom0_bus_clock (h : hardware) (n : Z) :
  0 <= n < 32 ->
  Z.testbit (reg_read (init_hardware h) PM_APBCMASK) n
  = Z.testbit (reg_read h PM_APBCMASK) n || (n =? 2).
Proof. apply init_hardware_APBCMASK_bits. Qed.

Lemma init_hardware_enables_sercom0_bus_clock_witness :
  Z.testbit (reg_read (init_hardware (mkHardware (fun _ => 0) [])) PM_APBCMASK) 2
  = Z.testbit (reg_read (mkHardware (fun _ => 0) []) PM_APBCMASK) 2 || (2 =? 2).
Proof.
  apply (init_hardware_enables_sercom0_bus_clock (mkHardware (fun _ => 0) []) 2).
  lia.
Defined.

(** X18: SERCOM0 is configured before it is enabled.  Whatever the registers
    held, the writes [init_hardware] makes end with [CTRLA = 0x40312006],
    the only write to [CTRLA] with the enable bit (bit 1) set; before it come
    the write of [BAUD = 0x6004], the write of [CTRLB = 0x30000] and the two
    writes of [GCLK->CLKCTRL], [0x4013] and [0x4014]. *)
Theorem init_hardware_enables_sercom0_last (h : hardware) :
  exists before,
    writes (init_hardware h)
    = writes h ++ before ++ [(SERCOM0_CTRLA, 0x40312006)]
    /\ (forall v, In (SERCOM0_CTRLA, v) before -> Z.testbit v 1 = false)
    /\ In (SERCOM0_BAUD, 0x6004) before
    /\ In (SERCOM0_CTRLB, 0x30000) before
    /\ In (GCLK_CLKCTRL, 0x4013) before
    /\ In (GCLK_CLKCTRL, 0x4014) before.
Proof.
  exists [ (SYSCTRL_OSC8M,
            Z.land (reg_read h SYSCTRL_OSC8M) (uint32 (Z.lnot (Z.shiftl 3 8)))
            mod 2 ^ 32);
           (PORT_PMUX 5,
            Z.land (reg_read h (PORT_PMUX 5)) (Z.lnot (Z.shiftl 0x0f 0)) mod 2 ^ 8);
           (PORT_PMUX 5,
            Z.lor (Z.land (reg_read h (PORT_PMUX 5)) (Z.lnot (Z.shiftl 0x0f 0))
                   mod 2 ^ 8) (Z.shiftl 0x02 0) mod 2 ^ 8);
           (PORT_PINCFG 10, 0x01);
           (PM_APBCMASK, Z.lor (reg_read h PM_APBCMASK) (Z.shiftl 1 2) mod 2 ^ 32);
           (GCLK_CLKCTRL, 0x4013);
           (GCLK_CLKCTRL, 0x4014);
           (SERCOM0_CTRLA, 0x40312004);
           (SERCOM0_BAUD, 0x6004);
           (SERCOM0_CTRLB, 0x30000) ].
  split.
  - unfold init_hardware. cbv zeta. change (Z.shiftr 10 1) with 5.
    cbn [writes reg_write].
    repeat rewrite <- app_assoc. cbn [app].
    reg_simpl. cbn [register_bits].
    repeat f_equal.
  - split.
    + intros v Hv. cbn [In] in Hv.
      repeat (destruct Hv as [Hv | Hv]; [try discriminate Hv|]);
        try contradiction.
      inversion Hv. reflexivity.
    + cbn [In]. repeat split; tauto.
Qed.

Lemma init_hardware_write_count (h : hardware) :
  length (writes (init_hardware h)) = (length (writes h) + 11)%nat.
Proof.
  unfold init_hardware. cbv zeta. cbn [writes reg_write].
  repeat rewrite length_app. cbn [length]. lia.
Qed.

(** X19: running [init_hardware] a second time leaves every register
    reading as after the first run. *)
Theorem init_hardware_is_idempotent (h : hardware) (r : register) :
  reg_read (init_hardware (init_hardware h)) r = reg_read (init_hardware h) r.
Proof.
  destruct r as [ | i | i | | | | | ].
  - apply Z.bits_inj'. intros n Hn.
    rewrite !init_hardware_OSC8M_bits by lia.
    rewrite <- andb_assoc, andb_diag. reflexivity.
  - destruct (Z.eq_dec i 5) as [-> | Hi].
    + rewrite !init_hardware_PMUX5.
      replace (16 * (reg_read h (PORT_PMUX 5) / 16) + 2)
        with (reg_read h (PORT_PMUX 5) / 16 * 16 + 2) at 1 by lia.
      rewrite Z.div_add_l by lia. change (2 / 16) with 0. lia.
    + unfold init_hardware. cbv zeta. change (Z.shiftr 10 1) with 5.
      reg_simpl. reflexivity.
  - destruct (Z.eq_dec i 10) as [-> | Hi].
    + unfold init_hardware. cbv zeta. reg_simpl. reflexivity.
    + unfold init_hardware. cbv zeta. reg_simpl. reflexivity.
  - apply Z.bits_inj'. intros n Hn.
    destruct (Z_lt_dec n 32) as [Hlt | Hge].
    + rewrite !init_hardware_APBCMASK_bits by lia.
      rewrite <- orb_assoc, orb_diag. reflexivity.
    + rewrite !reg_read_high_bits by (cbn; lia). reflexivity.
  - unfold init_hardware. cbv zeta. reg_simpl. reflexivity.
  - unfold init_hardware. cbv zeta. reg_simpl. reflexivity.
  - unfold init_hardware. cbv zeta. reg_simpl. reflexivity.
  - unfold init_hardware. cbv zeta. reg_simpl. reflexivity.
Qed.

Lemma main_loop_never_exits (fuel : nat) (h : hardware) (m : mem) :
  main_loop fuel h m = Looping h m.
Proof. induction fuel as [|fuel IH]; [reflexivity | exact IH]. Qed.

(** X20: [main] never returns and does nothing on the way: after any number
    of iterations of its loop the registers, the list of register writes and
    the memory are those it started with.  In particular it never runs
    [init_hardware], which makes eleven register writes, nor any table or
    chain builder. *)
Theorem main_spins_without_effect (fuel : nat) (h : hardware) (m : mem) :
  main fuel h m = Looping h m
  /\ length (writes (init_hardware h)) = (length (writes h) + 11)%nat.
Proof.
  split.
  - unfold main. cbv zeta. apply main_loop_never_exits.
  - apply init_hardware_write_count.
Qed.

(** X21: none of the nine builders with a [uint8_t] counter returns: for
    every amount of fuel, base and store the loop is still running, since a
    [uint8_t] is always below 256. *)
Theorem uint8_builders_never_return
        (a b : Z) (builder : nat -> Z -> mem -> outcome)
        (fuel : nat) (base : Z) (m : mem) :
  In builder (uint8_table_builders a b) ->
  exists t, builder fuel base m = Running t.
Proof.
  intros Hin. unfold uint8_table_builders in Hin. simpl in Hin.
  repeat (destruct Hin as [<- | Hin]);
    [ unfold setup_low_nybble_to_low_nybble
    | unfold setup_low_nybble_to_high_nybble
    | unfold setup_high_nybble_to_high_nybble
    | unfold setup_high_nybble_to_low_nybble
    | unfold setup_nybble_add_no_carryin
    | unfold setup_nybble_add_with_carryin
    | unfold Carryout.setup_nybble_add_no_carryin
    | unfold Carryout.setup_nybble_add_with_carryin
    | unfold setup_nybble_compare_equal
    | contradiction ];
    match goal with
    | |- exists t, for_loop _ _
           (fun count m => Returned (store8 m (_ + count) (@?g count)))
           _ _ _ = Running t =>
        destruct (uint8_table_snapshot g base fuel m) as (t & Ht & _);
        exists t; exact Ht
    end.
Qed.

Lemma uint8_builders_never_return_witness :
  exists t, setup_nybble_compare_equal 1000 0x20003000 0xAA 0x55 zero_mem = Running t.
Proof.
  apply (uint8_builders_never_return 0xAA 0x55
           (fun fuel base m => setup_nybble_compare_equal fuel base 0xAA 0x55 m)
           1000 0x20003000 zero_mem).
  simpl. tauto.
Defined.
